(** * Event-bus client of the Artisan platform ([artisan_common/events.py])

    A shallow embedding of [NATSClient] (connect, publish, subscribe, close)
    together with the parts of the Python runtime its behaviour depends on:
    [str.replace], UTF-8 [bytes.decode] / [str.encode], and [json.dumps] /
    [json.loads] with their default arguments.

    Calls that leave the process (the nats-py transport, the structlog
    logger, [uuid4], the clock, the caller's handler) are nodes of a program
    tree; an environment answers them when the tree is run. *)

From Stdlib Require Import ZArith NArith List String Ascii Lia Bool.
From Stdlib Require Import DecimalN DecimalFacts.
From stdpp Require Import base option list strings gmap.

Local Open Scope N_scope.

(** ** Python strings and bytes *)

Module Py.

(** A Python [str] is a sequence of Unicode code points; [bytes] is a
    sequence of octets. *)
Definition str := list N.
Definition bytes := list Byte.byte.

Definition ord (a : ascii) : N := N_of_ascii a.

(** An ASCII literal as a [str]. *)
Definition lit (s : string) : str := map ord (list_ascii_of_string s).

Definition str_eqb (a b : str) : bool := bool_decide (a = b).

(** [s.startswith(p)] *)
Fixpoint startswith (p s : str) : bool :=
  match p, s with
  | [], _ => true
  | _ :: _, [] => false
  | a :: p', b :: s' => (a =? b) && startswith p' s'
  end.

(** [s.replace(old, new)] for a non-empty [old]: scan left to right; where
    [old] occurs, emit [new] and jump over the occurrence ([skip] counts the
    characters of the occurrence still to jump over). *)
Fixpoint replace_scan (old new : str) (skip : nat) (s : str) : str :=
  match s with
  | [] => []
  | c :: s' =>
      match skip with
      | S k => replace_scan old new k s'
      | O =>
          if startswith old s
          then new ++ replace_scan old new (Nat.pred (length old)) s'
          else c :: replace_scan old new O s'
      end
  end.

(** [s.replace(old, new)]; an empty [old] matches before every character
    and at the end. *)
Definition replace (s old new : str) : str :=
  match old with
  | [] => new ++ flat_map (fun c => c :: new) s
  | _ :: _ => replace_scan old new O s
  end.

(** *** UTF-8 *)

Definition is_surrogate (c : N) : bool := (0xD800 <=? c) && (c <=? 0xDFFF).
Definition is_cont (b : N) : bool := (0x80 <=? b) && (b <=? 0xBF).

(** Exceptions.  [OtherError] stands for any other subclass of
    [Exception]; the last three derive from [BaseException] only. *)
Inductive PyExc : Type :=
| RuntimeError (msg : string)
| UnicodeDecodeError
| UnicodeEncodeError
| JSONDecodeError
| AttributeError (msg : string)
| OtherError (name : string)
| CancelledError
| KeyboardInterrupt
| SystemExit.

(** [isinstance(e, Exception)] *)
Definition isinstance_Exception (e : PyExc) : bool :=
  match e with
  | CancelledError | KeyboardInterrupt | SystemExit => false
  | _ => true
  end.

Inductive Result (A : Type) : Type :=
| Ok (a : A)
| Raised (e : PyExc).
Arguments Ok {A} a.
Arguments Raised {A} e.

(** [data.decode()]: strict UTF-8.  Shortest form only, no surrogates,
    nothing above U+10FFFF. *)
Fixpoint utf8_decode (bs : list N) : option str :=
  match bs with
  | [] => Some []
  | b0 :: r0 =>
      if b0 <? 0x80 then cons b0 <$> utf8_decode r0
      else if (0xC0 <=? b0) && (b0 <? 0xE0) then
        match r0 with
        | b1 :: r1 =>
            let c := N.lor (N.shiftl (N.land b0 0x1F) 6) (N.land b1 0x3F) in
            if is_cont b1 && (0x80 <=? c)
            then cons c <$> utf8_decode r1 else None
        | _ => None
        end
      else if (0xE0 <=? b0) && (b0 <? 0xF0) then
        match r0 with
        | b1 :: b2 :: r2 =>
            let c := N.lor (N.shiftl (N.land b0 0x0F) 12)
                       (N.lor (N.shiftl (N.land b1 0x3F) 6) (N.land b2 0x3F)) in
            if is_cont b1 && is_cont b2 && (0x800 <=? c) && negb (is_surrogate c)
            then cons c <$> utf8_decode r2 else None
        | _ => None
        end
      else if (0xF0 <=? b0) && (b0 <? 0xF8) then
        match r0 with
        | b1 :: b2 :: b3 :: r3 =>
            let c := N.lor (N.shiftl (N.land b0 0x07) 18)
                       (N.lor (N.shiftl (N.land b1 0x3F) 12)
                          (N.lor (N.shiftl (N.land b2 0x3F) 6) (N.land b3 0x3F))) in
            if is_cont b1 && is_cont b2 && is_cont b3
               && (0x10000 <=? c) && (c <? 0x110000)
            then cons c <$> utf8_decode r3 else None
        | _ => None
        end
      else None
  end.

Definition bytes_decode (data : bytes) : Result str :=
  match utf8_decode (map Byte.to_N data) with
  | Some s => Ok s
  | None => Raised UnicodeDecodeError
  end.

Definition byte_of (n : N) : Byte.byte :=
  match Byte.of_N n with Some b => b | None => Byte.x00 end.

(** The UTF-8 octets of one code point; [None] for a surrogate or a value
    that is no code point. *)
Definition utf8_encode1 (c : N) : option (list N) :=
  if c <? 0x80 then Some [c]
  else if c <? 0x800 then
    Some [N.lor 0xC0 (N.shiftr c 6); N.lor 0x80 (N.land c 0x3F)]
  else if c <? 0x10000 then
    if is_surrogate c then None
    else Some [N.lor 0xE0 (N.shiftr c 12);
               N.lor 0x80 (N.land (N.shiftr c 6) 0x3F);
               N.lor 0x80 (N.land c 0x3F)]
  else if c <? 0x110000 then
    Some [N.lor 0xF0 (N.shiftr c 18);
          N.lor 0x80 (N.land (N.shiftr c 12) 0x3F);
          N.lor 0x80 (N.land (N.shiftr c 6) 0x3F);
          N.lor 0x80 (N.land c 0x3F)]
  else None.

Fixpoint utf8_encode (s : str) : option (list N) :=
  match s with
  | [] => Some []
  | c :: s' =>
      match utf8_encode1 c, utf8_encode s' with
      | Some bs, Some r => Some (bs ++ r)
      | _, _ => None
      end
  end.

(** [s.encode()] *)
Definition str_encode (s : str) : Result bytes :=
  match utf8_encode s with
  | Some bs => Ok (map byte_of bs)
  | None => Raised UnicodeEncodeError
  end.

(** *** Fixed-width number formatting ([%0Nd], [%0Nx]) *)

Definition digit_char (d : N) : N :=
  if d <? 10 then ord "0" + d else ord "a" + (d - 10).

(** The [width] low-order digits of [n] in [base], most significant first;
    this is [format(n, '0<width>x')] (or [d]) whenever [n < base ^ width]. *)
Fixpoint fixed_digits (base : N) (width : nat) (n : N) : str :=
  match width with
  | O => []
  | S w => fixed_digits base w (n / base) ++ [digit_char (n mod base)]
  end.

Definition hex_fixed := fixed_digits 16.
Definition dec_fixed := fixed_digits 10.

End Py.
Export Py.

(** ** The [json] module, default arguments *)

Module Json.

(** The values [json] transports.  A float is kept as the numeric literal
    that denotes it: rounding to binary64 is not modelled. *)
#[warnings="-register-all"] Inductive JSON : Type :=
| JNull
| JBool (b : bool)
| JInt (z : Z)
| JFloat (lexeme : str)
| JStr (s : str)
| JArr (items : list JSON)
| JObj (fields : list (str * JSON)).

(** A [dict] is kept in insertion order.  [d[k] = v] overwrites in place or
    appends. *)
Fixpoint dict_lookup (k : str) (d : list (str * JSON)) : option JSON :=
  match d with
  | [] => None
  | (k', v) :: d' => if str_eqb k k' then Some v else dict_lookup k d'
  end.

Fixpoint dict_set (d : list (str * JSON)) (k : str) (v : JSON) : list (str * JSON) :=
  match d with
  | [] => [(k, v)]
  | (k', v') :: d' =>
      if str_eqb k k' then (k', v) :: d' else (k', v') :: dict_set d' k v
  end.

Definition dict_of_pairs (pairs : list (str * JSON)) : list (str * JSON) :=
  fold_left (fun d kv => dict_set d (fst kv) (snd kv)) pairs [].

(** [type(o).__name__] *)
Definition type_name (o : JSON) : string :=
  match o with
  | JNull => "NoneType"
  | JBool _ => "bool"
  | JInt _ => "int"
  | JFloat _ => "float"
  | JStr _ => "str"
  | JArr _ => "list"
  | JObj _ => "dict"
  end.

(** The message of the [AttributeError] for a missing attribute. *)
Definition no_attribute (o : JSON) (attr : string) : PyExc :=
  AttributeError
    (String.append "'"
       (String.append (type_name o)
          (String.append "' object has no attribute '" (String.append attr "'")))).

(** [o.get(key, default)]; only a [dict] has the method. *)
Definition py_get (o : JSON) (key : str) (default : JSON) : Result JSON :=
  match o with
  | JObj fields =>
      Ok (match dict_lookup key fields with Some v => v | None => default end)
  | _ => Raised (no_attribute o "get")
  end.

(** *** Encoder: [json.dumps], [ensure_ascii=True], separators [", "] and [": "] *)

Definition escape_char (c : N) : str :=
  if c =? 0x22 then [0x5C; 0x22]
  else if c =? 0x5C then [0x5C; 0x5C]
  else if c =? 0x0A then [0x5C; ord "n"]
  else if c =? 0x0D then [0x5C; ord "r"]
  else if c =? 0x09 then [0x5C; ord "t"]
  else if c =? 0x08 then [0x5C; ord "b"]
  else if c =? 0x0C then [0x5C; ord "f"]
  else if (0x20 <=? c) && (c <=? 0x7E) then [c]
  else if c <? 0x10000 then 0x5C :: ord "u" :: hex_fixed 4 c
  else
    let n := c - 0x10000 in
    let s1 := N.lor 0xD800 (N.land (N.shiftr n 10) 0x3FF) in
    let s2 := N.lor 0xDC00 (N.land n 0x3FF) in
    (0x5C :: ord "u" :: hex_fixed 4 s1) ++ (0x5C :: ord "u" :: hex_fixed 4 s2).

Definition encode_basestring_ascii (s : str) : str :=
  0x22 :: flat_map escape_char s ++ [0x22].

Fixpoint uint_chars (u : Decimal.uint) : str :=
  match u with
  | Decimal.Nil => []
  | Decimal.D0 u => ord "0" :: uint_chars u
  | Decimal.D1 u => ord "1" :: uint_chars u
  | Decimal.D2 u => ord "2" :: uint_chars u
  | Decimal.D3 u => ord "3" :: uint_chars u
  | Decimal.D4 u => ord "4" :: uint_chars u
  | Decimal.D5 u => ord "5" :: uint_chars u
  | Decimal.D6 u => ord "6" :: uint_chars u
  | Decimal.D7 u => ord "7" :: uint_chars u
  | Decimal.D8 u => ord "8" :: uint_chars u
  | Decimal.D9 u => ord "9" :: uint_chars u
  end.

(** [repr] of an [int] *)
Definition repr_int (z : Z) : str :=
  (if (z <? 0)%Z then [ord "-"] else []) ++ uint_chars (N.to_uint (Z.abs_N z)).

Fixpoint join (sep : str) (parts : list str) : str :=
  match parts with
  | [] => []
  | p :: ps =>
      match ps with
      | [] => p
      | _ :: _ => p ++ sep ++ join sep ps
      end
  end.

Fixpoint dumps (j : JSON) : str :=
  match j with
  | JNull => lit "null"
  | JBool true => lit "true"
  | JBool false => lit "false"
  | JInt z => repr_int z
  | JFloat x => x
  | JStr s => encode_basestring_ascii s
  | JArr items => lit "[" ++ join (lit ", ") (map dumps items) ++ lit "]"
  | JObj fields =>
      lit "{"
      ++ join (lit ", ")
           (map (fun kv => encode_basestring_ascii (fst kv) ++ lit ": " ++ dumps (snd kv))
                fields)
      ++ lit "}"
  end.

(** *** Decoder: [json.loads], strict mode *)

Definition is_ws (c : N) : bool :=
  (c =? 0x20) || (c =? 0x09) || (c =? 0x0A) || (c =? 0x0D).

Fixpoint skip_ws (s : str) : str :=
  match s with
  | c :: s' => if is_ws c then skip_ws s' else s
  | [] => []
  end.

Definition is_digit (c : N) : bool := (ord "0" <=? c) && (c <=? ord "9").

Definition hex_val (c : N) : option N :=
  if is_digit c then Some (c - ord "0")
  else if (ord "a" <=? c) && (c <=? ord "f") then Some (c - ord "a" + 10)
  else if (ord "A" <=? c) && (c <=? ord "F") then Some (c - ord "A" + 10)
  else None.

Definition hex4 (a b c d : N) : option N :=
  a ← hex_val a; b ← hex_val b; c ← hex_val c; d ← hex_val d;
  Some (((a * 16 + b) * 16 + c) * 16 + d).

Definition is_high (c : N) : bool := (0xD800 <=? c) && (c <=? 0xDBFF).
Definition is_low (c : N) : bool := (0xDC00 <=? c) && (c <=? 0xDFFF).

Definition join_surrogates (hi lo : N) : N :=
  0x10000 + N.lor (N.shiftl (hi - 0xD800) 10) (lo - 0xDC00).

Definition unescape (e : N) : option N :=
  if e =? 0x22 then Some 0x22
  else if e =? 0x5C then Some 0x5C
  else if e =? ord "/" then Some (ord "/")
  else if e =? ord "b" then Some 0x08
  else if e =? ord "f" then Some 0x0C
  else if e =? ord "n" then Some 0x0A
  else if e =? ord "r" then Some 0x0D
  else if e =? ord "t" then Some 0x09
  else None.

Definition cons_fst {A B} (a : A) (r : option (list A * B)) : option (list A * B) :=
  '(x, rest) ← r; Some (a :: x, rest).

(** The body of a string literal, after its opening quote: the decoded
    text and what follows the closing quote. *)
Fixpoint scanstring (s : str) : option (str * str) :=
  match s with
  | [] => None
  | c :: s1 =>
      if c =? 0x22 then Some ([], s1)
      else if c =? 0x5C then
        match s1 with
        | [] => None
        | e :: s2 =>
            if e =? ord "u" then
              match s2 with
              | h1 :: h2 :: h3 :: h4 :: s3 =>
                  match hex4 h1 h2 h3 h4 with
                  | None => None
                  | Some uni =>
                      match s3 with
                      | b :: u :: g1 :: g2 :: g3 :: g4 :: s4 =>
                          if is_high uni && (b =? 0x5C) && (u =? ord "u") then
                            match hex4 g1 g2 g3 g4 with
                            | None => None
                            | Some uni2 =>
                                if is_low uni2
                                then cons_fst (join_surrogates uni uni2) (scanstring s4)
                                else cons_fst uni (scanstring s3)
                            end
                          else cons_fst uni (scanstring s3)
                      | _ => cons_fst uni (scanstring s3)
                      end
                  end
              | _ => None
              end
            else
              match unescape e with
              | Some ch => cons_fst ch (scanstring s2)
              | None => None
              end
        end
      else if c <? 0x20 then None
      else cons_fst c (scanstring s1)
  end.

Definition digit_cons (c : N) : Decimal.uint -> Decimal.uint :=
  match c - ord "0" with
  | 0 => Decimal.D0 | 1 => Decimal.D1 | 2 => Decimal.D2 | 3 => Decimal.D3
  | 4 => Decimal.D4 | 5 => Decimal.D5 | 6 => Decimal.D6 | 7 => Decimal.D7
  | 8 => Decimal.D8 | _ => Decimal.D9
  end.

(** The longest run of decimal digits at the head of [s]. *)
Fixpoint scan_uint (s : str) : Decimal.uint * str :=
  match s with
  | c :: s' =>
      if is_digit c
      then let '(u, r) := scan_uint s' in (digit_cons c u, r)
      else (Decimal.Nil, s)
  | [] => (Decimal.Nil, [])
  end.

(** Integer part of a number: ["0"] or a run of digits not starting with
    ["0"] (a leading zero ends the integer part). *)
Definition scan_int_part (s : str) : option (Decimal.uint * str) :=
  match s with
  | c :: s' =>
      if c =? ord "0" then Some (Decimal.D0 Decimal.Nil, s')
      else if is_digit c then Some (scan_uint s)
      else None
  | [] => None
  end.

(** Optional fraction: a dot followed by at least one digit. *)
Definition scan_frac (s : str) : option str :=
  match s with
  | dot :: d :: s' =>
      if (dot =? ord ".") && is_digit d then Some (snd (scan_uint (d :: s'))) else None
  | _ => None
  end.

(** Optional exponent: [e] or [E], an optional sign, at least one digit. *)
Definition scan_exp (s : str) : option str :=
  match s with
  | e :: s' =>
      if (e =? ord "e") || (e =? ord "E") then
        let s'' := match s' with
                   | sg :: r => if (sg =? ord "-") || (sg =? ord "+") then r else s'
                   | [] => s'
                   end in
        match s'' with
        | d :: _ => if is_digit d then Some (snd (scan_uint s'')) else None
        | [] => None
        end
      else None
  | [] => None
  end.

(** A number whose integer part starts at [s0]; [s] is the text from the
    sign on, kept for the lexeme of a float. *)
Definition number_from (s : str) (neg : bool) (s0 : str) : option (JSON * str) :=
  '(u, r1) ← scan_int_part s0;
  let frac := scan_frac r1 in
  let r2 := default r1 frac in
  let ex := scan_exp r2 in
  let r3 := default r2 ex in
  if bool_decide (is_Some frac) || bool_decide (is_Some ex)
  then Some (JFloat (take (length s - length r3) s), r3)
  else Some (JInt (if neg then - Z.of_N (N.of_uint u) else Z.of_N (N.of_uint u))%Z, r3).

Definition match_number (s : str) : option (JSON * str) :=
  match s with
  | c :: r => if c =? ord "-" then number_from s true r else number_from s false s
  | [] => None
  end.

Definition constant (name : string) (v : JSON) (s : str) : option (JSON * str) :=
  if startswith (lit name) s
  then Some (v, drop (length (lit name)) s) else None.

(** [scan_once]: one value at the head of [s], with [parse_members] for the
    members of an object and [parse_items] for the items of an array.
    [fuel] bounds the depth of the calls, as the interpreter's recursion
    limit does; running out of it is a decoding error. *)
Fixpoint scan_once (fuel : nat) (s : str) : option (JSON * str) :=
  match fuel with
  | O => None
  | S fuel' =>
      match s with
      | [] => None
      | c :: s1 =>
          if c =? 0x22 then '(x, r) ← scanstring s1; Some (JStr x, r)
          else if c =? ord "{" then
            match skip_ws s1 with
            | c2 :: r2 =>
                if c2 =? ord "}" then Some (JObj [], r2)
                else '(m, r) ← parse_members fuel' (c2 :: r2);
                     Some (JObj (dict_of_pairs m), r)
            | [] => None
            end
          else if c =? ord "[" then
            match skip_ws s1 with
            | c2 :: r2 =>
                if c2 =? ord "]" then Some (JArr [], r2)
                else '(l, r) ← parse_items fuel' (c2 :: r2); Some (JArr l, r)
            | [] => None
            end
          else
            match constant "null" JNull s with
            | Some r => Some r
            | None =>
            match constant "true" (JBool true) s with
            | Some r => Some r
            | None =>
            match constant "false" (JBool false) s with
            | Some r => Some r
            | None =>
            match constant "NaN" (JFloat (lit "NaN")) s with
            | Some r => Some r
            | None =>
            match constant "Infinity" (JFloat (lit "Infinity")) s with
            | Some r => Some r
            | None =>
            match constant "-Infinity" (JFloat (lit "-Infinity")) s with
            | Some r => Some r
            | None => match_number s
            end end end end end end
      end
  end
with parse_members (fuel : nat) (s : str) : option (list (str * JSON) * str) :=
  match fuel with
  | O => None
  | S fuel' =>
      match s with
      | q :: s1 =>
          if q =? 0x22 then
            '(k, r1) ← scanstring s1;
            match skip_ws r1 with
            | colon :: r2 =>
                if colon =? ord ":" then
                  '(v, r3) ← scan_once fuel' (skip_ws r2);
                  match skip_ws r3 with
                  | d :: r4 =>
                      if d =? ord "}" then Some ([(k, v)], r4)
                      else if d =? ord "," then
                        '(m, r5) ← parse_members fuel' (skip_ws r4);
                        Some ((k, v) :: m, r5)
                      else None
                  | [] => None
                  end
                else None
            | [] => None
            end
          else None
      | [] => None
      end
  end
with parse_items (fuel : nat) (s : str) : option (list JSON * str) :=
  match fuel with
  | O => None
  | S fuel' =>
      '(v, r1) ← scan_once fuel' s;
      match skip_ws r1 with
      | d :: r2 =>
          if d =? ord "]" then Some ([v], r2)
          else if d =? ord "," then
            '(l, r3) ← parse_items fuel' (skip_ws r2);
            Some (v :: l, r3)
          else None
      | [] => None
      end
  end.

(** [json.loads(s)]: one value, surrounded by optional white space, and
    nothing else; a leading byte-order mark is refused.  The scanner gets
    one call more than the text has characters. *)
Definition loads (s : str) : Result JSON :=
  if startswith [0xFEFF] s then Raised JSONDecodeError
  else
    match scan_once (S (length s)) (skip_ws s) with
    | Some (j, r) =>
        match skip_ws r with
        | [] => Ok j
        | _ :: _ => Raised JSONDecodeError
        end
    | None => Raised JSONDecodeError
    end.

(** *** The payloads the round trip is stated for *)

(** A Unicode scalar value: a code point that is no surrogate. *)
Definition scalar (c : N) : bool := (c <? 0x110000) && negb (is_surrogate c).

(** Text: a [str] of scalar values. *)
Definition is_text (s : str) : bool := forallb scalar s.

(** A JSON value as the specification has it: text for strings and keys,
    keys of an object distinct (as in any [dict]), and no float. *)
Fixpoint json_value (j : JSON) : bool :=
  match j with
  | JNull | JBool _ | JInt _ => true
  | JFloat _ => false
  | JStr s => is_text s
  | JArr items => forallb json_value items
  | JObj fields =>
      forallb (fun kv => is_text (fst kv) && json_value (snd kv)) fields
      && bool_decide (NoDup (map fst fields))
  end.

(** Calls to [scan_once] and its helpers needed to read a value back. *)
Fixpoint size (j : JSON) : nat :=
  match j with
  | JArr items => S (list_sum (map (fun x => S (size x)) items))
  | JObj fields => S (list_sum (map (fun kv => S (size (snd kv))) fields))
  | _ => 1%nat
  end.

(** What may follow a value inside a document: nothing, or a separator
    or closing bracket. *)
Definition value_end (rest : str) : bool :=
  match rest with
  | [] => true
  | c :: _ => (c =? ord ",") || (c =? ord "]") || (c =? ord "}")
  end.

Definition ascii_text (s : str) : Prop := Forall (fun c => c < 0x80) s.

(** *** Vocabulary of the read-back proof *)

(** What may follow a number: nothing, or a character that continues
    neither its digits, its fraction nor its exponent. *)
Definition digit_free_head (rest : str) : Prop :=
  match rest with [] => True | c :: _ => is_digit c = false end.

Definition number_end (rest : str) : Prop :=
  match rest with
  | [] => True
  | c :: _ => is_digit c = false /\ (c =? ord ".") = false
              /\ (c =? ord "e") = false /\ (c =? ord "E") = false
  end.

(** How the text of a value begins. *)
Definition value_start (c : N) : Prop :=
  is_ws c = false /\ (c =? ord "]") = false /\ (c =? ord "}") = false /\ c < 0x80.

(** [scan_once] reads the text of [j] back, given calls enough. *)
Definition reads_back (j : JSON) : Prop :=
  forall fuel rest,
    (size j <= fuel)%nat -> value_end rest = true ->
    scan_once fuel (dumps j ++ rest) = Some (j, rest).

(** The item separator and the text of one member of an object. *)
Definition sep : str := lit ", ".

Definition member (kv : str * JSON) : str :=
  encode_basestring_ascii (fst kv) ++ lit ": " ++ dumps (snd kv).

End Json.
Export Json.

(** ** What the client calls outside itself *)

Module Nats.

(** Handles of nats-py objects. *)
Definition NATSConnection := nat.
Record JetStreamContext := { js_conn : NATSConnection }.

(** [nc.jetstream()]: a context bound to the connection, built locally. *)
Definition jetstream (nc : NATSConnection) : JetStreamContext := {| js_conn := nc |}.

(** The broker's acknowledgment of a publish. *)
Record PubAck := { ack_stream : str; ack_seq : N }.

(** A delivered message. *)
Record Msg := { msg_seq : N; msg_data : bytes }.

(** The messages a subscription yields until its channel closes. *)
Record Subscription := { messages : list Msg }.

Record UUID := { uuid_int : N }.

(** A UUID has 128 bits. *)
Definition uuid_ok (u : UUID) : bool := uuid_int u <? 2 ^ 128.

(** [str(u)]: 32 lower-case hexadecimal digits in groups 8-4-4-4-12. *)
Definition uuid_str (u : UUID) : str :=
  let hex := hex_fixed 32 (uuid_int u) in
  take 8 hex ++ lit "-" ++ take 4 (drop 8 hex) ++ lit "-" ++ take 4 (drop 12 hex)
  ++ lit "-" ++ take 4 (drop 16 hex) ++ lit "-" ++ drop 20 hex.

(** An aware [datetime] in UTC. *)
Record datetime := {
  year : N; month : N; day : N;
  hour : N; minute : N; second : N; microsecond : N
}.

(** The ranges [datetime] accepts for its fields (the length of the month
    apart). *)
Definition datetime_ok (dt : datetime) : bool :=
  (1 <=? year dt) && (year dt <=? 9999) && (1 <=? month dt) && (month dt <=? 12)
  && (1 <=? day dt) && (day dt <=? 31) && (hour dt <=? 23) && (minute dt <=? 59)
  && (second dt <=? 59) && (microsecond dt <=? 999999).

(** [dt.isoformat()] for a UTC datetime. *)
Definition isoformat (dt : datetime) : str :=
  dec_fixed 4 (year dt) ++ lit "-" ++ dec_fixed 2 (month dt) ++ lit "-"
  ++ dec_fixed 2 (day dt) ++ lit "T" ++ dec_fixed 2 (hour dt) ++ lit ":"
  ++ dec_fixed 2 (minute dt) ++ lit ":" ++ dec_fixed 2 (second dt)
  ++ (if microsecond dt =? 0 then [] else lit "." ++ dec_fixed 6 (microsecond dt))
  ++ lit "+00:00".

(** The caller's handler, a coroutine function the environment runs. *)
Definition EventHandler := nat.

Inductive LogValue : Type :=
| LStr (s : str)
| LInt (n : N).

(** Every call that leaves the client.  Awaited transport calls and the
    handler answer with a [Result]: they may raise. *)
Inductive Call : Type :=
| nats_connect (url : str)
| js_add_stream (js : JetStreamContext) (name : str) (subjects : list str)
| js_publish (js : JetStreamContext) (subject : str) (payload : bytes)
| js_subscribe (js : JetStreamContext) (subject : str) (durable : str)
| nc_drain (nc : NATSConnection)
| msg_ack (m : Msg)
| msg_nak (m : Msg)
| handler_call (h : EventHandler) (data : JSON)
| uuid4
| datetime_now_utc
| logger_info (event : string) (fields : list (string * LogValue))
| logger_exception (event : string) (fields : list (string * LogValue)) (exc : PyExc).

Definition Resp (c : Call) : Type :=
  match c with
  | nats_connect _ => Result NATSConnection
  | js_add_stream _ _ _ => Result unit
  | js_publish _ _ _ => Result PubAck
  | js_subscribe _ _ _ => Result Subscription
  | nc_drain _ => Result unit
  | msg_ack _ => Result unit
  | msg_nak _ => Result unit
  | handler_call _ _ => Result unit
  | uuid4 => UUID
  | datetime_now_utc => datetime
  | logger_info _ _ => unit
  | logger_exception _ _ _ => unit
  end.

(** A program: a tree of outside calls, each continued on its answer. *)
Inductive Prog (A : Type) : Type :=
| Ret (a : A)
| Vis (c : Call) (k : Resp c -> Prog A).
Arguments Ret {A} a.
Arguments Vis {A} c k.

Fixpoint bind {A B} (p : Prog A) (f : A -> Prog B) : Prog B :=
  match p with
  | Ret a => f a
  | Vis c k => Vis c (fun r => bind (k r) f)
  end.

(** A call together with the answer it got. *)
Definition Event := { c : Call & Resp c }.
Definition Ev (c : Call) (r : Resp c) : Event := existT c r.

(** [Runs p t a]: [p] can run issuing exactly the calls of [t], getting
    the answers recorded there, and return [a]. *)
Fixpoint Runs {A} (p : Prog A) (t : list Event) (a : A) : Prop :=
  match p with
  | Ret a' => t = [] /\ a' = a
  | Vis c k => exists (r : Resp c) (t' : list Event), t = Ev c r :: t' /\ Runs (k r) t' a
  end.

(** An environment answers calls from a state of its own. *)
Definition Env (W : Type) := forall c : Call, W -> W * Resp c.

Fixpoint run {W A} (env : Env W) (p : Prog A) (w : W) : list Event * W * A :=
  match p with
  | Ret a => ([], w, a)
  | Vis c k =>
      let '(w1, r) := env c w in
      let '(t, w2, a) := run env (k r) w1 in
      (Ev c r :: t, w2, a)
  end.

Definition calls (t : list Event) : list Call := map (fun e => projT1 e) t.

End Nats.
Export Nats.

(** ** [NATSClient] *)

Module Events.

Record NATSClient := {
  _nats_url : str;
  _stream_name : str;
  _nc : option NATSConnection;
  _js : option JetStreamContext
}.

(** [NATSClient(nats_url, stream_name)] *)
Definition __init__ (nats_url stream_name : str) : NATSClient :=
  {| _nats_url := nats_url; _stream_name := stream_name; _nc := None; _js := None |}.

Definition default_nats_url : str := lit "nats://localhost:4222".
Definition default_stream_name : str := lit "ARTISAN".

(** A method body: it reads and updates [self], calls out, and returns or
    raises.  [self] survives a raise. *)
Definition M (A : Type) : Type := NATSClient -> Prog (NATSClient * Result A).

Definition ret {A} (a : A) : M A := fun self => Ret (self, Ok a).
Definition raise {A} (e : PyExc) : M A := fun self => Ret (self, Raised e).

Definition bindM {A B} (m : M A) (f : A -> M B) : M B :=
  fun self =>
    bind (m self) (fun sr =>
      match snd sr with
      | Ok a => f a (fst sr)
      | Raised e => Ret (fst sr, Raised e)
      end).

Definition get_self : M NATSClient := fun self => Ret (self, Ok self).
Definition set_nc (nc : option NATSConnection) : M unit :=
  fun self => Ret ({| _nats_url := _nats_url self; _stream_name := _stream_name self;
                      _nc := nc; _js := _js self |}, Ok tt).
Definition set_js (js : option JetStreamContext) : M unit :=
  fun self => Ret ({| _nats_url := _nats_url self; _stream_name := _stream_name self;
                      _nc := _nc self; _js := js |}, Ok tt).

(** A call whose answer is a plain value. *)
Definition call (c : Call) : M (Resp c) := fun self => Vis c (fun r => Ret (self, Ok r)).

(** A value or the exception it stands for. *)
Definition lift {A} (r : Result A) : M A :=
  match r with Ok a => ret a | Raised e => raise e end.

(** [await]: the awaited call's exception is raised here. *)
Definition await {A} (m : M (Result A)) : M A := bindM m lift.

(** [try: body  except Exception: handler]: what is no [Exception]
    passes through. *)
Definition try_except {A} (body : M A) (handler : PyExc -> M A) : M A :=
  fun self =>
    bind (body self) (fun sr =>
      match snd sr with
      | Ok a => Ret (fst sr, Ok a)
      | Raised e =>
          if isinstance_Exception e then handler e (fst sr)
          else Ret (fst sr, Raised e)
      end).

Declare Scope py_scope.
Delimit Scope py_scope with py.
Notation "x <- m ;; k" := (bindM m (fun x => k))
  (at level 100, m at next level, right associativity) : py_scope.
Notation "m ;; k" := (bindM m (fun _ => k))
  (at level 100, right associativity) : py_scope.
Local Open Scope py_scope.

Definition not_connected : PyExc :=
  RuntimeError "NATS not connected. Call connect() first.".

Definition stream_subjects : list str :=
  [lit "art.>"; lit "order.>"; lit "notification.>"].

(** [connect]: open the transport, take its JetStream context, create or
    update the stream, log. *)
Definition connect : M unit :=
  self <- get_self ;;
  nc <- await (call (nats_connect (_nats_url self))) ;;
  set_nc (Some nc) ;;
  set_js (Some (jetstream nc)) ;;
  await (call (js_add_stream (jetstream nc) (_stream_name self) stream_subjects)) ;;
  call (logger_info "nats_connected"
          [("url", LStr (_nats_url self)); ("stream", LStr (_stream_name self))]).

(** The envelope [publish] wraps a payload in. *)
Definition make_envelope (u : UUID) (subject : str) (now : datetime)
    (data : list (str * JSON)) : JSON :=
  JObj [(lit "event_id", JStr (uuid_str u));
        (lit "subject", JStr subject);
        (lit "timestamp", JStr (isoformat now));
        (lit "data", JObj data)].

(** [publish(subject, data)]; returns [None]. *)
Definition publish (subject : str) (data : list (str * JSON)) : M unit :=
  self <- get_self ;;
  match _js self with
  | None => raise not_connected
  | Some js =>
      u <- call uuid4 ;;
      now <- call datetime_now_utc ;;
      let envelope := make_envelope u subject now data in
      payload <- lift (str_encode (dumps envelope)) ;;
      ack <- await (call (js_publish js subject payload)) ;;
      call (logger_info "event_published"
              [("subject", LStr subject); ("stream", LStr (ack_stream ack));
               ("seq", LInt (ack_seq ack))])
  end.

(** The durable name used when the caller gives none. *)
Definition default_durable_name (subject : str) : str :=
  replace (replace subject (lit ".") (lit "-")) (lit ">") (lit "all").

(** The body of the delivery loop, for one message. *)
Definition process (subject : str) (handler : EventHandler) (msg : Msg) : M unit :=
  try_except
    (text <- lift (bytes_decode (msg_data msg)) ;;
     envelope <- lift (loads text) ;;
     data <- lift (py_get envelope (lit "data") (JObj [])) ;;
     await (call (handler_call handler data)) ;;
     await (call (msg_ack msg)))
    (fun exc =>
       text <- lift (bytes_decode (msg_data msg)) ;;
       call (logger_exception "event_handler_error"
               [("subject", LStr subject); ("data", LStr text)] exc) ;;
       await (call (msg_nak msg))).

(** [async for msg in subscription.messages: ...] *)
Fixpoint deliver (subject : str) (handler : EventHandler) (msgs : list Msg) : M unit :=
  match msgs with
  | [] => ret tt
  | msg :: rest => process subject handler msg ;; deliver subject handler rest
  end.

(** [subscribe(subject, handler, durable_name=None)] *)
Definition subscribe (subject : str) (handler : EventHandler)
    (durable_name : option str) : M unit :=
  self <- get_self ;;
  match _js self with
  | None => raise not_connected
  | Some js =>
      let durable_name :=
        match durable_name with
        | None => default_durable_name subject
        | Some d => d
        end in
      subscription <- await (call (js_subscribe js subject durable_name)) ;;
      call (logger_info "event_subscribed"
              [("subject", LStr subject); ("durable", LStr durable_name)]) ;;
      deliver subject handler (messages subscription)
  end.

(** [close()] *)
Definition close : M unit :=
  self <- get_self ;;
  match _nc self with
  | Some nc =>
      await (call (nc_drain nc)) ;;
      call (logger_info "nats_disconnected" [])
  | None => ret tt
  end.

End Events.
Export Events.

(** ** The specification's reading of the default durable name *)

Module Spec.

(** "Every [.] replaced by [-] and every [>] replaced by [all]", character
    by character. *)
Definition durable_char (c : N) : str :=
  if c =? ord "." then lit "-"
  else if c =? ord ">" then lit "all"
  else [c].

Definition durable_name (subject : str) : str := flat_map durable_char subject.

(** Reading the generated fields back. *)

Definition lower_hex (c : N) : option N :=
  if is_digit c then Some (c - ord "0")
  else if (ord "a" <=? c) && (c <=? ord "f") then Some (c - ord "a" + 10)
  else None.

Definition decimal (c : N) : option N :=
  if is_digit c then Some (c - ord "0") else None.

(** The number a run of digits denotes, most significant digit first. *)
Fixpoint number (base : N) (digit : N -> option N) (acc : N) (s : str) : option N :=
  match s with
  | [] => Some acc
  | c :: s' =>
      match digit c with
      | Some d => number base digit (acc * base + d) s'
      | None => None
      end
  end.

(** [s] has [part] at position [i]. *)
Definition has (s : str) (i : nat) (part : str) : bool :=
  str_eqb (take (length part) (drop i s)) part.

(** "A UUID string": 32 lower-case hexadecimal digits in groups of 8, 4,
    4, 4 and 12 joined by hyphens, read as the UUID it denotes. *)
Definition uuid_of_text (s : str) : option UUID :=
  if (length s =? 36)%nat && has s 8 (lit "-") && has s 13 (lit "-")
     && has s 18 (lit "-") && has s 23 (lit "-")
  then
    n ← number 16 lower_hex 0
          (take 8 s ++ take 4 (drop 9 s) ++ take 4 (drop 14 s) ++ take 4 (drop 19 s)
           ++ drop 24 s);
    Some {| uuid_int := n |}
  else None.

Definition field (s : str) (i width : nat) : option N :=
  number 10 decimal 0 (take width (drop i s)).

(** "An ISO-8601 UTC string": [YYYY-MM-DDTHH:MM:SS], an optional fraction
    of six digits, and the offset [+00:00], read as the instant it
    denotes. *)
Definition iso8601_utc (s : str) : option datetime :=
  if has s 4 (lit "-") && has s 7 (lit "-") && has s 10 (lit "T")
     && has s 13 (lit ":") && has s 16 (lit ":")
  then
    y ← field s 0 4; mo ← field s 5 2; d ← field s 8 2;
    h ← field s 11 2; mi ← field s 14 2; se ← field s 17 2;
    us ← (if str_eqb (drop 19 s) (lit "+00:00") then Some 0
          else if has s 19 (lit ".") && str_eqb (drop 26 s) (lit "+00:00")
               then field s 20 6
               else None);
    let dt := {| year := y; month := mo; day := d; hour := h; minute := mi;
                 second := se; microsecond := us |} in
    if datetime_ok dt then Some dt else None
  else None.

End Spec.

(** ** Executions in which every acknowledgment reaches the broker *)

(** An [ack] or [nak] call that raised. *)
Definition ack_failed (e : Event) : bool :=
  match projT1 e as c return Resp c -> bool with
  | msg_ack _ => fun r => match r with Raised _ => true | Ok _ => false end
  | msg_nak _ => fun r => match r with Raised _ => true | Ok _ => false end
  | _ => fun _ => false
  end (projT2 e).

Definition transport_ok (t : list Event) : Prop :=
  forallb (fun e => negb (ack_failed e)) t = true.

(** The fields of the [event_handler_error] log record. *)
Definition error_record (subject text : str) : list (string * LogValue) :=
  [("subject", LStr subject); ("data", LStr text)].

(** ASCII text as the bytes of a message, and a quoted JSON string. *)
Definition ascii_bytes (s : str) : bytes := map byte_of s.
Definition quoted (s : string) : str := 0x22 :: lit s ++ [0x22].

(** ** A broker to run the client against *)

Module Broker.

(** Streams by name with their subjects, the number of connections opened
    so far, and the number of messages stored so far. *)
Record World := {
  streams : gmap str (list str);
  conns : nat;
  stored : N
}.

Definition empty : World := {| streams := ∅; conns := O; stored := 0 |}.

(** [add_stream]: creates the stream, accepts a request equal to the
    existing configuration, refuses a different one. *)
Definition add_stream (name : str) (subjects : list str) (w : World)
    : World * Result unit :=
  match streams w !! name with
  | None =>
      ({| streams := <[name := subjects]> (streams w); conns := conns w;
          stored := stored w |}, Ok tt)
  | Some have =>
      if bool_decide (have = subjects) then (w, Ok tt)
      else (w, Raised (OtherError "BadRequestError"))
  end.

Definition env : Env World := fun c =>
  match c return World -> World * Resp c with
  | nats_connect _ => fun w =>
      ({| streams := streams w; conns := S (conns w); stored := stored w |},
       Ok (conns w))
  | js_add_stream _ name subjects => add_stream name subjects
  | js_publish _ _ _ => fun w =>
      ({| streams := streams w; conns := conns w; stored := stored w + 1 |},
       Ok {| ack_stream := default_stream_name; ack_seq := stored w + 1 |})
  | js_subscribe _ _ _ => fun w => (w, Ok {| messages := [] |})
  | nc_drain _ => fun w => (w, Ok tt)
  | msg_ack _ => fun w => (w, Ok tt)
  | msg_nak _ => fun w => (w, Ok tt)
  | handler_call _ _ => fun w => (w, Ok tt)
  | uuid4 => fun w => (w, {| uuid_int := 0 |})
  | datetime_now_utc => fun w =>
      (w, {| year := 2025; month := 1; day := 1; hour := 0; minute := 0;
             second := 0; microsecond := 0 |})
  | logger_info _ _ => fun w => (w, tt)
  | logger_exception _ _ _ => fun w => (w, tt)
  end.

End Broker.

(** A payload, and two delivered messages: an envelope carrying it, and a
    JSON object without a [data] key. *)
Definition artwork : JSON := JObj [(lit "artwork_id", JStr (lit "abc-123"))].

Definition example_text : str :=
  lit "{" ++ quoted "subject" ++ lit ": " ++ quoted "art.created" ++ lit ", "
  ++ quoted "data" ++ lit ": {" ++ quoted "artwork_id" ++ lit ": " ++ quoted "abc-123"
  ++ lit "}}".

Definition example_event : Msg :=
  {| msg_seq := 1; msg_data := ascii_bytes example_text |}.

Definition example_bare_object : Msg :=
  {| msg_seq := 2;
     msg_data := ascii_bytes (lit "{" ++ quoted "subject" ++ lit ": "
                              ++ quoted "art.created" ++ lit "}") |}.

Definition fresh_client : NATSClient := __init__ default_nats_url default_stream_name.

(** The client as [connect] leaves it on connection [nc]. *)
Definition connected (nc : NATSConnection) : NATSClient :=
  {| _nats_url := default_nats_url; _stream_name := default_stream_name;
     _nc := Some nc; _js := Some (jetstream nc) |}.

(** ** A broker that can be told to fail *)

Record Faults := {
  no_server : bool;
  stream_refused : bool;
  publish_times_out : bool;
  consumer_refused : bool;
  deliveries : list Msg;
  handler_rejects : JSON -> bool
}.

Definition no_faults : Faults :=
  {| no_server := false; stream_refused := false; publish_times_out := false;
     consumer_refused := false; deliveries := []; handler_rejects := fun _ => false |}.

(** The broker of [Broker.env], except where a fault is switched on; it
    delivers [deliveries] to every subscription. *)
Definition faulty (f : Faults) : Env Broker.World := fun c =>
  match c return Broker.World -> Broker.World * Resp c with
  | nats_connect url => fun w =>
      if no_server f then (w, Raised (OtherError "NoServersError"))
      else Broker.env (nats_connect url) w
  | js_add_stream js name subjects => fun w =>
      if stream_refused f then (w, Raised (OtherError "BadRequestError"))
      else Broker.env (js_add_stream js name subjects) w
  | js_publish js subject payload => fun w =>
      if publish_times_out f then (w, Raised (OtherError "TimeoutError"))
      else Broker.env (js_publish js subject payload) w
  | js_subscribe js subject durable => fun w =>
      if consumer_refused f then (w, Raised (OtherError "BadRequestError"))
      else (w, Ok {| messages := deliveries f |})
  | handler_call h data => fun w =>
      if handler_rejects f data then (w, Raised (OtherError "ValueError"))
      else (w, Ok tt)
  | c' => Broker.env c'
  end.

(** The broker of [Broker.env] with a handler, an [ack] and a [nak] that
    answer as told. *)
Definition answering (h a n : Result unit) : Env Broker.World := fun c =>
  match c return Broker.World -> Broker.World * Resp c with
  | handler_call _ _ => fun w => (w, h)
  | msg_ack _ => fun w => (w, a)
  | msg_nak _ => fun w => (w, n)
  | c' => Broker.env c'
  end.

(** ** Observing an execution *)

(** What the loop body does after its [try] block raised [e], for a message
    whose bytes decode to [text]: an [Exception] is logged and the message
    negatively acknowledged, with the outcome of the [nak] call; anything
    else leaves the loop body at once. *)
Definition after_raise (subject : str) (m : Msg) (text : str) (e : PyExc)
    (t : list Event) (r : Result unit) : Prop :=
  if isinstance_Exception e
  then exists n,
         t = [Ev (logger_exception "event_handler_error" (error_record subject text) e) tt;
              Ev (msg_nak m) n]
         /\ r = n
  else t = [] /\ r = Raised e.

(** The client with connection [nc] and its context in place. *)
Definition holding (self : NATSClient) (nc : NATSConnection) : NATSClient :=
  {| _nats_url := _nats_url self; _stream_name := _stream_name self;
     _nc := Some nc; _js := Some (jetstream nc) |}.

(** The context the client holds is the one of the connection it holds. *)
Definition consistent (self : NATSClient) : Prop :=
  _js self = jetstream <$> _nc self.

Definition is_drain (c : Call) : bool :=
  match c with nc_drain _ => true | _ => false end.

Definition is_js_publish (c : Call) : bool :=
  match c with js_publish _ _ _ => true | _ => false end.

Definition is_info_log (c : Call) : bool :=
  match c with logger_info _ _ => true | _ => false end.

Definition is_error_log (c : Call) : bool :=
  match c with logger_exception _ _ _ => true | _ => false end.

Definition is_ack (c : Call) : bool :=
  match c with msg_ack _ => true | _ => false end.

Definition is_nak (c : Call) : bool :=
  match c with msg_nak _ => true | _ => false end.

Definition is_handler_call (c : Call) : bool :=
  match c with handler_call _ _ => true | _ => false end.

(** How many calls of a kind an execution made. *)
Definition count (kind : Call -> bool) (t : list Event) : nat :=
  length (filter (fun c => kind c = true) (calls t)).

(** The messages acknowledged, positively or negatively, in the order of
    the acknowledgments. *)
Definition acked_msg (c : Call) : option Msg :=
  match c with
  | msg_ack m => Some m
  | msg_nak m => Some m
  | _ => None
  end.

Definition acknowledged (t : list Event) : list Msg := omap acked_msg (calls t).

(** The arguments the handler was called with, in order. *)
Definition handler_arg (c : Call) : option JSON :=
  match c with handler_call _ data => Some data | _ => None end.

Definition handled (t : list Event) : list JSON := omap handler_arg (calls t).

(** The bytes of a message are UTF-8. *)
Definition decodable (m : Msg) : bool :=
  match bytes_decode (msg_data m) with Ok _ => true | Raised _ => false end.

(** What the loop hands to the handler for a message, if anything:
    [json.loads(msg.data.decode()).get("data", {})]. *)
Definition payload_of (m : Msg) : option JSON :=
  match bytes_decode (msg_data m) with
  | Ok text =>
      match loads text with
      | Ok envelope =>
          match py_get envelope (lit "data") (JObj []) with
          | Ok data => Some data
          | Raised _ => None
          end
      | Raised _ => None
      end
  | Raised _ => None
  end.

Definition is_object (j : JSON) : bool :=
  match j with JObj _ => true | _ => false end.

(** No float anywhere in a value. *)
Fixpoint float_free (j : JSON) : bool :=
  match j with
  | JFloat _ => false
  | JArr items => forallb float_free items
  | JObj fields => forallb (fun kv => float_free (snd kv)) fields
  | _ => true
  end.

(** Printable ASCII: from the space to the tilde. *)
Definition printable (s : str) : Prop := Forall (fun c => 0x20 <= c <= 0x7E) s.

(** A JSON array on the wire. *)
Definition example_array : Msg :=
  {| msg_seq := 3; msg_data := ascii_bytes (lit "[1, 2]") |}.

Arguments dumps : simpl never.
Arguments loads : simpl never.
Arguments str_encode : simpl never.
Arguments bytes_decode : simpl never.
Arguments default_durable_name : simpl never.
Arguments uuid_str : simpl never.
Arguments isoformat : simpl never.
Arguments py_get : simpl never.
Arguments lit : simpl never.

(* ================================ Properties ================================ *)

Example lit_example : lit "art.>" = [97; 114; 116; 46; 62].
Proof. reflexivity. Qed.

Example replace_example : replace (lit "a.b.c") (lit ".") (lit "--") = lit "a--b--c".
Proof. reflexivity. Qed.

Example replace_multi : replace (lit "aaaa") (lit "aa") (lit "b") = lit "bb".
Proof. reflexivity. Qed.

Example replace_empty_old : replace (lit "abc") [] (lit "-") = lit "-a-b-c-".
Proof. reflexivity. Qed.

Example decode_bad : bytes_decode [Byte.xff] = Raised UnicodeDecodeError.
Proof. reflexivity. Qed.

Example decode_euro : bytes_decode [Byte.xe2; Byte.x82; Byte.xac] = Ok [0x20AC].
Proof. reflexivity. Qed.

Example encode_euro : str_encode [0x20AC] = Ok [Byte.xe2; Byte.x82; Byte.xac].
Proof. reflexivity. Qed.

Example hex_example : hex_fixed 4 0x20ac = lit "20ac".
Proof. reflexivity. Qed.

Example dumps_example :
  dumps (JObj [(lit "a", JInt (-12)); (lit "b", JArr [JNull; JBool true; JStr (lit "x.y")])])
  = lit "{" ++ [0x22] ++ lit "a" ++ [0x22] ++ lit ": -12, " ++ [0x22] ++ lit "b" ++ [0x22]
    ++ lit ": [null, true, " ++ [0x22] ++ lit "x.y" ++ [0x22] ++ lit "]}".
Proof. reflexivity. Qed.

Example loads_example :
  loads (lit "  {" ++ [0x22] ++ lit "a" ++ [0x22] ++ lit " : [1, 2.5e3 , {}], "
         ++ [0x22; 97; 233; 0x22] ++ lit ":null} ")
  = Ok (JObj [(lit "a", JArr [JInt 1; JFloat (lit "2.5e3"); JObj []]); ([97; 233], JNull)]).
Proof. vm_compute. reflexivity. Qed.

Example loads_trailing_comma : loads (lit "[1, 2,]") = Raised JSONDecodeError.
Proof. reflexivity. Qed.

Example loads_leading_zero : loads (lit "012") = Raised JSONDecodeError.
Proof. reflexivity. Qed.

Example loads_pair :
  loads ([0x22] ++ lit "\ud83d\ude00" ++ [0x22]) = Ok (JStr [0x1F600]).
Proof. reflexivity. Qed.

Example dumps_pair :
  dumps (JStr [0x1F600; 0x7F]) = [0x22] ++ lit "\ud83d\ude00\u007f" ++ [0x22].
Proof. reflexivity. Qed.

(** ** Durable-name derivation *)

Section Replace.

Lemma replace_scan_single (a : N) (new s : str) :
  replace_scan [a] new O s = flat_map (fun c => if c =? a then new else [c]) s.
Proof.
  induction s as [|c s IH]; [reflexivity|].
  cbn [replace_scan startswith flat_map length Nat.pred].
  rewrite N.eqb_sym, andb_true_r.
  destruct (c =? a); cbn [app]; rewrite IH; reflexivity.
Qed.

Lemma replace_single (a : N) (new s : str) :
  replace s [a] new = flat_map (fun c => if c =? a then new else [c]) s.
Proof. apply replace_scan_single. Qed.

Lemma default_durable_name_spec (subject : str) :
  default_durable_name subject = Spec.durable_name subject.
Proof.
  unfold default_durable_name, Spec.durable_name.
  change (lit ".") with [ord "."]. change (lit ">") with [ord ">"].
  rewrite !replace_single.
  induction subject as [|c s IH]; [reflexivity|].
  cbn [flat_map]. rewrite flat_map_app, IH. f_equal.
  unfold Spec.durable_char.
  destruct (c =? ord ".") eqn:Hdot; [reflexivity|].
  destruct (c =? ord ">") eqn:Hgt; cbn [flat_map app]; rewrite Hgt; reflexivity.
Qed.

Lemma durable_name_app (a b : str) :
  default_durable_name (a ++ b) = default_durable_name a ++ default_durable_name b.
Proof.
  rewrite !default_durable_name_spec. unfold Spec.durable_name.
  apply flat_map_app.
Qed.

Lemma durable_name_other (c : N) :
  c <> ord "." -> c <> ord ">" -> default_durable_name [c] = [c].
Proof.
  intros Hdot Hgt. rewrite default_durable_name_spec.
  unfold Spec.durable_name, Spec.durable_char. cbn [flat_map].
  apply N.eqb_neq in Hdot, Hgt. rewrite Hdot, Hgt. reflexivity.
Qed.

End Replace.

(** ** Numbers: [repr] of an [int] read back *)

Lemma digit_cons_chars (u : Decimal.uint) :
  Forall (fun c => is_digit c = true) (uint_chars u).
Proof. induction u; constructor; try assumption; reflexivity. Qed.

Lemma scan_uint_chars (u : Decimal.uint) (rest : str) :
  digit_free_head rest -> scan_uint (uint_chars u ++ rest) = (u, rest).
Proof.
  intros Hrest. induction u; cbn [uint_chars];
    [| rewrite <- app_comm_cons; cbn [scan_uint];
       match goal with |- context [is_digit ?c] => change (is_digit c) with true end;
       cbv iota; rewrite IHu; reflexivity ..].
  cbn [app]. destruct rest as [|c r]; [reflexivity|]. cbn in *. rewrite Hrest. reflexivity.
Qed.

Lemma to_uint_shape (n : N) :
  N.to_uint n = Decimal.D0 Decimal.Nil \/
  (exists c r, uint_chars (N.to_uint n) = c :: r /\ is_digit c = true /\ (c =? ord "0") = false).
Proof.
  destruct n as [|p]; [left; reflexivity|right].
  pose proof (DecimalPos.Unsigned.to_uint_nonnil p) as Hnil.
  assert (Hn : Decimal.unorm (Pos.to_uint p) = Pos.to_uint p).
  { change (Pos.to_uint p) with (N.to_uint (N.pos p)).
    rewrite <- (DecimalN.Unsigned.of_to (N.pos p)) at 2.
    rewrite DecimalN.Unsigned.to_of. reflexivity. }
  change (N.to_uint (N.pos p)) with (Pos.to_uint p).
  destruct (Pos.to_uint p) as [|u|u|u|u|u|u|u|u|u|u] eqn:E;
    [congruence| |cbn [uint_chars]; eexists _, _; split; [reflexivity|split; reflexivity] ..].
  exfalso. rewrite unorm_D0 in Hn.
  destruct (Decimal.uint_eq_dec (Decimal.nzhead u) Decimal.Nil) as [Hz|Hz].
  - apply unorm_0 in Hz. rewrite Hz in Hn. injection Hn as <-.
    apply (DecimalPos.Unsigned.to_uint_nonzero p). exact E.
  - assert (Hu : u <> Decimal.Nil) by (intros ->; apply Hz; reflexivity).
    pose proof (nb_digits_unorm u Hu) as L. rewrite Hn in L. cbn in L. lia.
Qed.

Lemma scan_int_part_chars (n : N) (rest : str) :
  digit_free_head rest ->
  scan_int_part (uint_chars (N.to_uint n) ++ rest) = Some (N.to_uint n, rest).
Proof.
  intros Hrest. destruct (to_uint_shape n) as [E|(c & r & E & Hd & Hz)].
  - rewrite E. reflexivity.
  - pose proof (scan_uint_chars (N.to_uint n) rest Hrest) as S.
    rewrite E in *. rewrite <- app_comm_cons in *. unfold scan_int_part.
    rewrite Hz, Hd, S. reflexivity.
Qed.

Lemma number_end_digit_free rest : number_end rest -> digit_free_head rest.
Proof. destruct rest; [auto|]. intros [H _]. exact H. Qed.

Lemma scan_frac_end rest : number_end rest -> scan_frac rest = None.
Proof.
  destruct rest as [|c [|d r]]; try reflexivity.
  intros (_ & H & _). unfold scan_frac. rewrite H. reflexivity.
Qed.

Lemma scan_exp_end rest : number_end rest -> scan_exp rest = None.
Proof.
  destruct rest as [|c r]; [reflexivity|]. intros (_ & _ & He & HE).
  unfold scan_exp. rewrite He, HE. reflexivity.
Qed.

Lemma number_from_chars (s : str) (neg : bool) (n : N) (rest : str) :
  number_end rest ->
  number_from s neg (uint_chars (N.to_uint n) ++ rest)
  = Some (JInt (if neg then - Z.of_N n else Z.of_N n)%Z, rest).
Proof.
  intros Hrest. unfold number_from.
  rewrite (scan_int_part_chars n rest (number_end_digit_free _ Hrest)).
  cbn [mbind option_bind]. cbv beta iota zeta.
  rewrite scan_frac_end by assumption. cbn [default].
  rewrite scan_exp_end by assumption. cbn.
  rewrite DecimalN.Unsigned.of_to. reflexivity.
Qed.

Lemma uint_chars_head (n : N) :
  exists c r, uint_chars (N.to_uint n) = c :: r /\ is_digit c = true.
Proof.
  destruct (to_uint_shape n) as [E|(c & r & E & Hd & _)].
  - rewrite E. eexists _, _. split; reflexivity.
  - eauto.
Qed.

Lemma digit_range (c : N) : is_digit c = true <-> 48 <= c <= 57.
Proof.
  unfold is_digit. change (ord "0") with 48. change (ord "9") with 57.
  rewrite andb_true_iff, !N.leb_le. reflexivity.
Qed.

Lemma match_number_repr (z : Z) (rest : str) :
  number_end rest -> match_number (repr_int z ++ rest) = Some (JInt z, rest).
Proof.
  intros Hrest. unfold repr_int.
  destruct (z <? 0)%Z eqn:Hneg.
  - change (([ord "-"] ++ ?x) ++ rest) with (ord "-" :: (x ++ rest)).
    unfold match_number. change (ord "-" =? ord "-") with true. cbv iota.
    rewrite number_from_chars by assumption. do 3 f_equal. lia.
  - change (([] ++ ?x) ++ rest) with (x ++ rest).
    pose proof (number_from_chars (uint_chars (N.to_uint (Z.abs_N z)) ++ rest)
                  false (Z.abs_N z) rest Hrest) as Hn.
    destruct (uint_chars_head (Z.abs_N z)) as (c & r & E & Hd).
    rewrite E in *. rewrite <- app_comm_cons in *. unfold match_number.
    apply digit_range in Hd.
    replace (c =? ord "-") with false
      by (symmetry; apply N.eqb_neq; change (ord "-") with 45; lia).
    rewrite Hn. do 3 f_equal. lia.
Qed.

(** ** Strings: escapes read back *)

Lemma hex_val_digit (d : N) : d < 16 -> hex_val (digit_char d) = Some d.
Proof.
  intros H.
  assert (E : d = 0 \/ d = 1 \/ d = 2 \/ d = 3 \/ d = 4 \/ d = 5 \/ d = 6 \/ d = 7 \/
              d = 8 \/ d = 9 \/ d = 10 \/ d = 11 \/ d = 12 \/ d = 13 \/ d = 14 \/ d = 15)
    by lia.
  repeat (destruct E as [->|E]; [reflexivity|]). subst d. reflexivity.
Qed.

Lemma hex_fixed_4 (c : N) :
  hex_fixed 4 c =
  [digit_char (c / 16 / 16 / 16 mod 16); digit_char (c / 16 / 16 mod 16);
   digit_char (c / 16 mod 16); digit_char (c mod 16)].
Proof. reflexivity. Qed.

Lemma hex4_digits (c : N) :
  c < 0x10000 ->
  hex4 (digit_char (c / 16 / 16 / 16 mod 16)) (digit_char (c / 16 / 16 mod 16))
       (digit_char (c / 16 mod 16)) (digit_char (c mod 16)) = Some c.
Proof.
  intros Hc. unfold hex4.
  rewrite !hex_val_digit by (apply N.mod_lt; discriminate).
  cbn [mbind option_bind]. f_equal.
  assert (H16 : 16 <> 0) by discriminate.
  pose proof (N.div_mod c 16 H16). pose proof (N.mod_lt c 16 H16).
  pose proof (N.div_mod (c / 16) 16 H16). pose proof (N.mod_lt (c / 16) 16 H16).
  pose proof (N.div_mod (c / 16 / 16) 16 H16). pose proof (N.mod_lt (c / 16 / 16) 16 H16).
  pose proof (N.div_mod (c / 16 / 16 / 16) 16 H16).
  pose proof (N.mod_lt (c / 16 / 16 / 16) 16 H16).
  set (q1 := c / 16) in *. set (q2 := q1 / 16) in *. set (q3 := q2 / 16) in *.
  set (q4 := q3 / 16) in *.
  set (r0 := c mod 16) in *. set (r1 := q1 mod 16) in *. set (r2 := q2 mod 16) in *.
  set (r3 := q3 mod 16) in *. clearbody q1 q2 q3 q4 r0 r1 r2 r3. lia.
Qed.

Lemma lor_shiftl_add (q r k : N) : r < 2 ^ k -> N.lor (N.shiftl q k) r = q * 2 ^ k + r.
Proof.
  intros Hr. rewrite N.shiftl_mul_pow2.
  assert (Hland : N.land (q * 2 ^ k) r = 0).
  { apply N.bits_inj_0. intros n. rewrite N.land_spec.
    destruct (N.lt_ge_cases n k) as [Hn|Hn].
    - rewrite N.mul_pow2_bits_low by assumption. reflexivity.
    - rewrite <- (N.mod_small r (2 ^ k)) by assumption.
      rewrite N.mod_pow2_bits_high by assumption. apply andb_false_r. }
  rewrite N.add_nocarry_lxor by assumption. symmetry. apply N.lxor_lor. assumption.
Qed.

(** The surrogate pair the encoder writes for a code point above U+FFFF. *)
Lemma surrogates_of (c : N) :
  0x10000 <= c -> c < 0x110000 ->
  let n := c - 0x10000 in
  N.lor 0xD800 (N.land (N.shiftr n 10) 0x3FF) = 0xD800 + n / 1024
  /\ N.lor 0xDC00 (N.land n 0x3FF) = 0xDC00 + n mod 1024
  /\ n / 1024 < 1024.
Proof.
  intros Hlo Hhi n. assert (Hn : n < 1024 * 1024) by (unfold n; lia).
  assert (Hq : n / 1024 < 1024) by (apply N.Div0.div_lt_upper_bound; lia).
  change 0x3FF with (N.ones 10). rewrite !N.land_ones, N.shiftr_div_pow2.
  change (2 ^ 10) with 1024. rewrite (N.mod_small (n / 1024)) by assumption.
  change 0xD800 with (N.shiftl 54 10) at 1. change 0xDC00 with (N.shiftl 55 10) at 1.
  rewrite !lor_shiftl_add.
  - change (2 ^ 10) with 1024. split; [|split]; [lia|lia|assumption].
  - change (2 ^ 10) with 1024. apply N.mod_lt. discriminate.
  - exact Hq.
Qed.

Lemma join_surrogates_of (c : N) :
  0x10000 <= c -> c < 0x110000 ->
  let n := c - 0x10000 in
  join_surrogates (0xD800 + n / 1024) (0xDC00 + n mod 1024) = c.
Proof.
  intros Hlo Hhi n. unfold join_surrogates.
  rewrite (N.add_comm 0xD800), N.add_sub, (N.add_comm 0xDC00), N.add_sub.
  rewrite lor_shiftl_add by (change (2 ^ 10) with 1024; apply N.mod_lt; discriminate).
  change (2 ^ 10) with 1024.
  assert (H : n = 1024 * (n / 1024) + n mod 1024) by (apply N.div_mod; discriminate).
  set (q := n / 1024) in *. set (r := n mod 1024) in *. clearbody q r.
  unfold n in *. lia.
Qed.

Lemma scanstring_u (h1 h2 h3 h4 uni : N) (s3 : str) :
  hex4 h1 h2 h3 h4 = Some uni -> is_high uni = false ->
  scanstring (0x5C :: ord "u" :: h1 :: h2 :: h3 :: h4 :: s3) = cons_fst uni (scanstring s3).
Proof.
  intros Hh Hhi.
  change (scanstring (0x5C :: ord "u" :: h1 :: h2 :: h3 :: h4 :: s3))
    with (match hex4 h1 h2 h3 h4 with
          | None => None
          | Some uni =>
              match s3 with
              | b :: u :: g1 :: g2 :: g3 :: g4 :: s4 =>
                  if is_high uni && (b =? 0x5C) && (u =? ord "u") then
                    match hex4 g1 g2 g3 g4 with
                    | None => None
                    | Some uni2 =>
                        if is_low uni2
                        then cons_fst (join_surrogates uni uni2) (scanstring s4)
                        else cons_fst uni (scanstring s3)
                    end
                  else cons_fst uni (scanstring s3)
              | _ => cons_fst uni (scanstring s3)
              end
          end).
  rewrite Hh, Hhi. destruct s3 as [|? [|? [|? [|? [|? [|? ?]]]]]]; reflexivity.
Qed.

Lemma scanstring_pair (h1 h2 h3 h4 g1 g2 g3 g4 hi lo : N) (s4 : str) :
  hex4 h1 h2 h3 h4 = Some hi -> is_high hi = true ->
  hex4 g1 g2 g3 g4 = Some lo -> is_low lo = true ->
  scanstring (0x5C :: ord "u" :: h1 :: h2 :: h3 :: h4
              :: 0x5C :: ord "u" :: g1 :: g2 :: g3 :: g4 :: s4)
  = cons_fst (join_surrogates hi lo) (scanstring s4).
Proof.
  intros Hh Hhi Hg Hlo.
  change (scanstring (0x5C :: ord "u" :: h1 :: h2 :: h3 :: h4
              :: 0x5C :: ord "u" :: g1 :: g2 :: g3 :: g4 :: s4))
    with (match hex4 h1 h2 h3 h4 with
          | None => None
          | Some uni =>
              if is_high uni && (0x5C =? 0x5C) && (ord "u" =? ord "u") then
                match hex4 g1 g2 g3 g4 with
                | None => None
                | Some uni2 =>
                    if is_low uni2
                    then cons_fst (join_surrogates uni uni2) (scanstring s4)
                    else cons_fst uni (scanstring (0x5C :: ord "u" :: g1 :: g2 :: g3 :: g4 :: s4))
                end
              else cons_fst uni (scanstring (0x5C :: ord "u" :: g1 :: g2 :: g3 :: g4 :: s4))
          end).
  rewrite Hh, Hhi, Hg, Hlo. reflexivity.
Qed.

Lemma scanstring_plain (c : N) (s1 : str) :
  c <> 0x22 -> c <> 0x5C -> 0x20 <= c ->
  scanstring (c :: s1) = cons_fst c (scanstring s1).
Proof.
  intros H1 H2 H3.
  change (scanstring (c :: s1))
    with (if c =? 0x22 then Some ([], s1)
          else if c =? 0x5C then
            match s1 with
            | [] => None
            | e :: s2 =>
                if e =? ord "u" then
                  match s2 with
                  | h1 :: h2 :: h3 :: h4 :: s3 =>
                      match hex4 h1 h2 h3 h4 with
                      | None => None
                      | Some uni =>
                          match s3 with
                          | b :: u :: g1 :: g2 :: g3 :: g4 :: s4 =>
                              if is_high uni && (b =? 0x5C) && (u =? ord "u") then
                                match hex4 g1 g2 g3 g4 with
                                | None => None
                                | Some uni2 =>
                                    if is_low uni2
                                    then cons_fst (join_surrogates uni uni2) (scanstring s4)
                                    else cons_fst uni (scanstring s3)
                                end
                              else cons_fst uni (scanstring s3)
                          | _ => cons_fst uni (scanstring s3)
                          end
                      end
                  | _ => None
                  end
                else
                  match unescape e with
                  | Some ch => cons_fst ch (scanstring s2)
                  | None => None
                  end
            end
          else if c <? 0x20 then None
          else cons_fst c (scanstring s1)).
  apply N.eqb_neq in H1, H2. apply N.ltb_ge in H3. rewrite H1, H2, H3. reflexivity.
Qed.

Lemma scalar_range (c : N) :
  scalar c = true <-> c < 0x110000 /\ (c < 0xD800 \/ 0xDFFF < c).
Proof.
  unfold scalar, is_surrogate.
  rewrite andb_true_iff, negb_true_iff, andb_false_iff, N.ltb_lt, !N.leb_gt. reflexivity.
Qed.

Lemma scanstring_escape (c : N) (tail : str) :
  scalar c = true ->
  scanstring (escape_char c ++ tail) = cons_fst c (scanstring tail).
Proof.
  intros Hc. apply scalar_range in Hc as [Hmax Hsur]. unfold escape_char.
  destruct (N.eqb_spec c 0x22) as [->|H22]; [reflexivity|].
  destruct (N.eqb_spec c 0x5C) as [->|H5C]; [reflexivity|].
  destruct (N.eqb_spec c 0x0A) as [->|H0A]; [reflexivity|].
  destruct (N.eqb_spec c 0x0D) as [->|H0D]; [reflexivity|].
  destruct (N.eqb_spec c 0x09) as [->|H09]; [reflexivity|].
  destruct (N.eqb_spec c 0x08) as [->|H08]; [reflexivity|].
  destruct (N.eqb_spec c 0x0C) as [->|H0C]; [reflexivity|].
  destruct ((0x20 <=? c) && (c <=? 0x7E)) eqn:Hp.
  - apply andb_prop in Hp as [Hp _]. apply N.leb_le in Hp.
    apply scanstring_plain; assumption.
  - destruct (N.ltb_spec c 0x10000) as [Hb|Hb].
    + rewrite hex_fixed_4. apply scanstring_u; [apply hex4_digits; assumption|].
      unfold is_high. apply andb_false_iff. rewrite N.leb_gt, N.leb_gt. lia.
    + cbv zeta. destruct (surrogates_of c Hb Hmax) as (-> & -> & Hq).
      rewrite !hex_fixed_4.
      pose proof (join_surrogates_of c Hb Hmax) as Hj. cbv zeta in Hj.
      set (n := c - 0x10000) in *.
      assert (Hr : n mod 1024 < 1024) by (apply N.mod_lt; discriminate).
      set (q := n / 1024) in *. set (r := n mod 1024) in *. clearbody q r. clear n.
      cbn [app]. erewrite scanstring_pair; [rewrite Hj; reflexivity|..].
      * apply hex4_digits. lia.
      * unfold is_high. apply andb_true_iff. rewrite !N.leb_le. lia.
      * apply hex4_digits. lia.
      * unfold is_low. apply andb_true_iff. rewrite !N.leb_le. lia.
Qed.

Lemma scanstring_escaped (s : str) (rest : str) :
  is_text s = true ->
  scanstring (flat_map escape_char s ++ 0x22 :: rest) = Some (s, rest).
Proof.
  intros Hs. induction s as [|c s IH]; [reflexivity|].
  cbn [is_text forallb] in Hs. apply andb_prop in Hs as [Hc Hs].
  cbn [flat_map]. rewrite <- app_assoc, scanstring_escape by assumption.
  rewrite (IH Hs). reflexivity.
Qed.

(** ** Values: [scan_once] after [dumps] *)

Lemma JSON_induction (P : JSON -> Prop) :
  P JNull -> (forall b, P (JBool b)) -> (forall z, P (JInt z)) ->
  (forall x, P (JFloat x)) -> (forall s, P (JStr s)) ->
  (forall items, Forall P items -> P (JArr items)) ->
  (forall fields, Forall (fun kv => P (snd kv)) fields -> P (JObj fields)) ->
  forall j, P j.
Proof.
  intros Hn Hb Hi Hf Hs Ha Ho. fix IH 1. intros [ | b | z | x | s | items | fields].
  1-5: auto.
  - apply Ha. induction items as [|x items IHitems]; constructor; [apply IH | exact IHitems].
  - apply Ho. induction fields as [|[k v] fields IHf]; constructor; [apply IH | exact IHf].
Qed.

Lemma scan_once_string fuel s1 :
  scan_once (S fuel) (0x22 :: s1) = '(x, r) ← scanstring s1; Some (JStr x, r).
Proof. reflexivity. Qed.

Lemma scan_once_array fuel s1 :
  scan_once (S fuel) (ord "[" :: s1) =
  match skip_ws s1 with
  | c2 :: r2 =>
      if c2 =? ord "]" then Some (JArr [], r2)
      else '(l, r) ← parse_items fuel (c2 :: r2); Some (JArr l, r)
  | [] => None
  end.
Proof. reflexivity. Qed.

Lemma scan_once_object fuel s1 :
  scan_once (S fuel) (ord "{" :: s1) =
  match skip_ws s1 with
  | c2 :: r2 =>
      if c2 =? ord "}" then Some (JObj [], r2)
      else '(m, r) ← parse_members fuel (c2 :: r2); Some (JObj (dict_of_pairs m), r)
  | [] => None
  end.
Proof. reflexivity. Qed.

Lemma parse_items_eq fuel s :
  parse_items (S fuel) s =
  '(v, r1) ← scan_once fuel s;
  match skip_ws r1 with
  | d :: r2 =>
      if d =? ord "]" then Some ([v], r2)
      else if d =? ord "," then
        '(l, r3) ← parse_items fuel (skip_ws r2); Some (v :: l, r3)
      else None
  | [] => None
  end.
Proof. reflexivity. Qed.

Lemma parse_members_eq fuel s1 :
  parse_members (S fuel) (0x22 :: s1) =
  '(k, r1) ← scanstring s1;
  match skip_ws r1 with
  | colon :: r2 =>
      if colon =? ord ":" then
        '(v, r3) ← scan_once fuel (skip_ws r2);
        match skip_ws r3 with
        | d :: r4 =>
            if d =? ord "}" then Some ([(k, v)], r4)
            else if d =? ord "," then
              '(m, r5) ← parse_members fuel (skip_ws r4); Some ((k, v) :: m, r5)
            else None
        | [] => None
        end
      else None
  | [] => None
  end.
Proof. reflexivity. Qed.

Lemma digit_cases (c : N) :
  is_digit c = true ->
  c = 48 \/ c = 49 \/ c = 50 \/ c = 51 \/ c = 52 \/ c = 53 \/ c = 54 \/ c = 55
  \/ c = 56 \/ c = 57.
Proof. intros H. apply digit_range in H. lia. Qed.

Lemma scan_once_number fuel c s1 :
  is_digit c = true -> scan_once (S fuel) (c :: s1) = match_number (c :: s1).
Proof.
  intros H. apply digit_cases in H.
  repeat (destruct H as [->|H]; [reflexivity|]). subst c. reflexivity.
Qed.

Lemma scan_once_negative fuel d s2 :
  is_digit d = true ->
  scan_once (S fuel) (ord "-" :: d :: s2) = match_number (ord "-" :: d :: s2).
Proof.
  intros H. apply digit_cases in H.
  repeat (destruct H as [->|H]; [reflexivity|]). subst d. reflexivity.
Qed.

Lemma scan_once_int fuel z rest :
  number_end rest -> scan_once (S fuel) (repr_int z ++ rest) = Some (JInt z, rest).
Proof.
  intros Hrest. rewrite <- (match_number_repr z rest Hrest). unfold repr_int.
  destruct (uint_chars_head (Z.abs_N z)) as (c & r & E & Hd). rewrite E.
  destruct (z <? 0)%Z.
  - change (([ord "-"] ++ c :: r) ++ rest) with (ord "-" :: c :: (r ++ rest)).
    apply scan_once_negative. exact Hd.
  - change (([] ++ c :: r) ++ rest) with (c :: (r ++ rest)).
    apply scan_once_number. exact Hd.
Qed.

Lemma value_end_number rest : value_end rest = true -> number_end rest.
Proof.
  destruct rest as [|c r]; [constructor|]. cbn [value_end number_end]. intros H.
  apply orb_prop in H as [H|H]; [apply orb_prop in H as [H|H]|];
    apply N.eqb_eq in H; subst c; repeat split; reflexivity.
Qed.

Lemma skip_ws_head c r : is_ws c = false -> skip_ws (c :: r) = c :: r.
Proof. intros H. cbn [skip_ws]. rewrite H. reflexivity. Qed.

Lemma value_end_skip rest : value_end rest = true -> skip_ws rest = rest.
Proof.
  destruct rest as [|c r]; [reflexivity|]. cbn [value_end]. intros H.
  apply skip_ws_head.
  apply orb_prop in H as [H|H]; [apply orb_prop in H as [H|H]|];
    apply N.eqb_eq in H; subst c; reflexivity.
Qed.

Lemma dumps_head j :
  json_value j = true -> exists c r, dumps j = c :: r /\ value_start c.
Proof.
  destruct j as [ | [|] | z | x | s | items | fields]; intros H; try discriminate H;
    try (cbv [dumps]; eexists _, _; split; [reflexivity|repeat split]).
  unfold dumps, repr_int.
  destruct (uint_chars_head (Z.abs_N z)) as (c & r & E & Hd). rewrite E.
  destruct (z <? 0)%Z.
  - eexists _, _. split; [reflexivity|repeat split].
  - exists c, r. split; [reflexivity|]. apply digit_cases in Hd.
    repeat (destruct Hd as [->|Hd]; [repeat split|]). subst c. repeat split.
Qed.

Lemma dict_set_fresh d k v :
  k ∉ map fst d -> dict_set d k v = d ++ [(k, v)].
Proof.
  induction d as [|[k' v'] d IH]; intros Hk; [reflexivity|].
  cbn [dict_set]. unfold str_eqb. rewrite bool_decide_eq_false_2.
  - cbn [app]. f_equal. apply IH. intros Hin. apply Hk. cbn. right. exact Hin.
  - intros ->. apply Hk. cbn. left.
Qed.

Lemma dict_of_pairs_nodup fields :
  NoDup (map fst fields) -> dict_of_pairs fields = fields.
Proof.
  unfold dict_of_pairs.
  enough (G : forall acc, NoDup (map fst (acc ++ fields)) ->
              fold_left (fun d kv => dict_set d (fst kv) (snd kv)) fields acc = acc ++ fields)
    by (intros H; apply (G [] H)).
  induction fields as [|[k v] fields IH]; intros acc Hnd.
  - rewrite app_nil_r. reflexivity.
  - cbn [fold_left fst snd]. rewrite dict_set_fresh.
    + rewrite IH; rewrite <- app_assoc; [reflexivity|exact Hnd].
    + rewrite map_app in Hnd. apply NoDup_app in Hnd as (_ & Hd & _).
      intros Hin. apply (Hd k Hin). cbn. left.
Qed.

Lemma join_cons (p : str) (ps : list str) :
  join sep (p :: ps) = p ++ match ps with [] => [] | _ :: _ => sep ++ join sep ps end.
Proof. destruct ps; [rewrite app_nil_r|]; reflexivity. Qed.

Lemma skip_ws_dumps j tail :
  json_value j = true -> skip_ws (dumps j ++ tail) = dumps j ++ tail.
Proof.
  intros H. destruct (dumps_head j H) as (c & r & E & Hws & _). rewrite E.
  apply skip_ws_head. exact Hws.
Qed.

Lemma parse_items_dumps (items : list JSON) :
  Forall reads_back items -> forallb json_value items = true ->
  forall x fuel rest,
    reads_back x -> json_value x = true ->
    (list_sum (map (fun y => S (size y)) (x :: items)) <= fuel)%nat ->
    parse_items fuel (join sep (map dumps (x :: items)) ++ ord "]" :: rest)
    = Some (x :: items, rest).
Proof.
  induction items as [|y ys IH]; intros Hrb Hwf x fuel rest Hx Hxv Hfuel;
    (destruct fuel as [|fuel]; [cbn in Hfuel; lia|]);
    cbn [map list_sum fold_right] in Hfuel; rewrite parse_items_eq; cbn [map]; rewrite join_cons.
  - rewrite app_nil_r, Hx by (reflexivity || lia). reflexivity.
  - rewrite <- !app_assoc. rewrite Hx by (reflexivity || lia).
    cbn [mbind option_bind]. cbv beta iota.
    change (skip_ws (sep ++ ?t)) with (skip_ws (ord "," :: 0x20 :: t)).
    rewrite skip_ws_head by reflexivity.
    change (ord "," =? ord "]") with false. change (ord "," =? ord ",") with true.
    cbv iota.
    cbn [forallb] in Hwf. apply andb_prop in Hwf as [Hy Hys].
    apply Forall_cons in Hrb as [Hyr Hysr].
    change (skip_ws (0x20 :: ?t)) with (skip_ws t).
    assert (E : skip_ws (join sep (map dumps (y :: ys)) ++ ord "]" :: rest)
                = join sep (map dumps (y :: ys)) ++ ord "]" :: rest).
    { cbn [map]. rewrite join_cons, <- app_assoc. apply skip_ws_dumps. exact Hy. }
    cbn [map] in E |- *. rewrite E.
    pose proof (IH Hysr Hys y fuel rest Hyr Hy) as R.
    cbn [map list_sum fold_right] in R. rewrite R by lia. reflexivity.
Qed.

Lemma skip_ws_member kv tail : skip_ws (member kv ++ tail) = member kv ++ tail.
Proof. reflexivity. Qed.

Lemma parse_members_dumps (fields : list (str * JSON)) :
  Forall (fun kv => reads_back (snd kv)) fields ->
  forallb (fun kv => is_text (fst kv) && json_value (snd kv)) fields = true ->
  forall k v fuel rest,
    reads_back v -> is_text k = true -> json_value v = true ->
    (list_sum (map (fun kv => S (size (snd kv))) ((k, v) :: fields)) <= fuel)%nat ->
    parse_members fuel (join sep (map member ((k, v) :: fields)) ++ ord "}" :: rest)
    = Some ((k, v) :: fields, rest).
Proof.
  induction fields as [|[k' v'] fs IH]; intros Hrb Hwf k v fuel rest Hv Hk Hvv Hfuel;
    (destruct fuel as [|fuel]; [cbn in Hfuel; lia|]);
    cbn [map list_sum fold_right snd] in Hfuel; cbn [map]; rewrite join_cons;
    unfold member at 1; cbn [fst snd]; unfold encode_basestring_ascii at 1;
    rewrite <- !app_assoc, <- !app_comm_cons, parse_members_eq;
    rewrite <- !app_assoc; cbn [app];
    rewrite scanstring_escaped by assumption; cbn [mbind option_bind]; cbv beta iota;
    change (lit ": " ++ ?t) with (ord ":" :: 0x20 :: t);
    rewrite skip_ws_head by reflexivity;
    change (ord ":" =? ord ":") with true; cbv iota;
    change (skip_ws (0x20 :: ?t)) with (skip_ws t);
    rewrite skip_ws_dumps by assumption.
  - rewrite Hv by (reflexivity || lia). reflexivity.
  - rewrite Hv by (reflexivity || lia).
    cbn [mbind option_bind]. cbv beta iota.
    change (skip_ws (sep ++ ?t)) with (skip_ws (ord "," :: 0x20 :: t)).
    rewrite skip_ws_head by reflexivity.
    change (ord "," =? ord "}") with false. change (ord "," =? ord ",") with true.
    cbv iota.
    cbn [forallb fst snd] in Hwf. apply andb_prop in Hwf as [Hkv Hfs].
    apply andb_prop in Hkv as [Hk' Hv'].
    apply Forall_cons in Hrb as [Hvr Hfsr]. cbn [snd] in Hvr.
    change (skip_ws (0x20 :: ?t)) with (skip_ws t).
    assert (E : skip_ws (join sep (map member ((k', v') :: fs)) ++ ord "}" :: rest)
                = join sep (map member ((k', v') :: fs)) ++ ord "}" :: rest).
    { cbn [map]. rewrite join_cons, <- app_assoc. apply skip_ws_member. }
    cbn [map] in E |- *. rewrite E.
    pose proof (IH Hfsr Hfs k' v' fuel rest Hvr Hk' Hv') as R.
    cbn [map list_sum fold_right snd] in R. rewrite R by lia. reflexivity.
Qed.

Lemma dumps_array items :
  dumps (JArr items) = ord "[" :: join sep (map dumps items) ++ [ord "]"].
Proof. reflexivity. Qed.

Lemma dumps_object fields :
  dumps (JObj fields) = ord "{" :: join sep (map member fields) ++ [ord "}"].
Proof. reflexivity. Qed.

Lemma dumps_string s : dumps (JStr s) = 0x22 :: flat_map escape_char s ++ [0x22].
Proof. reflexivity. Qed.

Theorem reads_back_all (j : JSON) : json_value j = true -> reads_back j.
Proof.
  induction j using JSON_induction; intros Hwf fuel rest Hfuel Hrest;
    (destruct fuel as [|fuel]; [cbn in Hfuel; lia|]).
  - reflexivity.
  - destruct b; reflexivity.
  - apply scan_once_int, value_end_number, Hrest.
  - discriminate Hwf.
  - rewrite dumps_string, <- app_comm_cons, <- app_assoc, scan_once_string. cbn [app].
    rewrite scanstring_escaped by exact Hwf. reflexivity.
  - cbn [json_value] in Hwf. rewrite dumps_array, <- app_comm_cons, <- app_assoc.
    cbn [app]. rewrite scan_once_array.
    destruct items as [|x xs]; [reflexivity|].
    cbn [forallb] in Hwf. apply andb_prop in Hwf as [Hx Hxs].
    apply Forall_cons in H as [Hxr Hxsr].
    assert (Hrb : Forall reads_back xs).
    { clear -Hxs Hxsr. induction Hxsr as [|y ys Hy _ IH]; constructor;
        cbn [forallb] in Hxs; apply andb_prop in Hxs as [? ?]; auto. }
    pose proof (parse_items_dumps xs Hrb Hxs x fuel rest (Hxr Hx) Hx) as R.
    cbn [size] in Hfuel. specialize (R ltac:(lia)).
    destruct (dumps_head x Hx) as (c & r & E & Hws & Hc & _).
    revert R. cbn [map]. rewrite join_cons, <- app_assoc, E, <- app_comm_cons.
    intros R. rewrite skip_ws_head by exact Hws. rewrite Hc, R. reflexivity.
  - cbn [json_value] in Hwf. apply andb_prop in Hwf as [Hwf Hnd].
    apply bool_decide_eq_true_1 in Hnd.
    rewrite dumps_object, <- app_comm_cons, <- app_assoc.
    cbn [app]. rewrite scan_once_object.
    destruct fields as [|[k v] fs]; [reflexivity|].
    cbn [forallb fst snd] in Hwf. apply andb_prop in Hwf as [Hkv Hfs].
    apply andb_prop in Hkv as [Hk Hv].
    apply Forall_cons in H as [Hvr Hfsr]. cbn [snd] in Hvr.
    assert (Hrb : Forall (fun kv => reads_back (snd kv)) fs).
    { clear -Hfs Hfsr. induction Hfsr as [|y ys Hy _ IH]; constructor;
        cbn [forallb] in Hfs; apply andb_prop in Hfs as [Hy' ?];
        apply andb_prop in Hy' as [? ?]; auto. }
    pose proof (parse_members_dumps fs Hrb Hfs k v fuel rest (Hvr Hv) Hk Hv) as R.
    cbn [size] in Hfuel. specialize (R ltac:(lia)).
    assert (Em : member (k, v)
                 = 0x22 :: (flat_map escape_char k ++ [0x22]) ++ lit ": " ++ dumps v)
      by reflexivity.
    revert R. cbn [map]. rewrite join_cons, <- app_assoc, Em, <- !app_comm_cons.
    intros R. rewrite skip_ws_head by reflexivity.
    change (0x22 =? ord "}") with false. cbv iota.
    rewrite R. cbn [mbind option_bind]. cbv beta iota.
    rewrite dict_of_pairs_nodup by exact Hnd. reflexivity.
Qed.

Lemma join_length_bound {A} (w : A -> nat) (d : A -> str) (l : list A) :
  Forall (fun a => (w a <= length (d a))%nat) l ->
  (list_sum (map (fun a => S (w a)) l) <= length (join sep (map d l)) + 1)%nat.
Proof.
  induction 1 as [|a l Ha _ IH]; [cbn; lia|].
  cbn [map]. rewrite join_cons. cbn [list_sum fold_right] in *.
  rewrite length_app. destruct l as [|b l]. { cbn. lia. }
  cbn [map] in *. rewrite length_app. change (length sep) with 2%nat.
  unfold list_sum in IH. lia.
Qed.

Lemma size_le_length (j : JSON) : json_value j = true -> (size j <= length (dumps j))%nat.
Proof.
  induction j using JSON_induction; intros Hwf;
    try (destruct (dumps_head _ Hwf) as (c & r & -> & _); cbn; lia).
  - cbn [json_value] in Hwf. rewrite dumps_array. cbn [size length].
    rewrite length_app. cbn [length].
    enough (list_sum (map (fun x => S (size x)) items)
            <= length (join sep (map dumps items)) + 1)%nat by lia.
    apply join_length_bound.
    induction H as [|x xs Hx _ IH]; constructor;
      cbn [forallb] in Hwf; apply andb_prop in Hwf as [? ?]; auto.
  - cbn [json_value] in Hwf. apply andb_prop in Hwf as [Hwf _].
    rewrite dumps_object. cbn [size length]. rewrite length_app. cbn [length].
    enough (list_sum (map (fun kv => S (size (snd kv))) fields)
            <= length (join sep (map member fields)) + 1)%nat by lia.
    apply (join_length_bound (fun kv => size (snd kv)) member).
    induction H as [|[k v] xs Hx _ IH]; constructor;
      cbn [forallb fst snd] in Hwf; apply andb_prop in Hwf as [Hkv ?]; auto.
    apply andb_prop in Hkv as [_ Hv]. cbn [snd] in *. specialize (Hx Hv).
    unfold member. cbn [fst snd]. rewrite !length_app. lia.
Qed.

(** [json.loads(json.dumps(j))] is [j]. *)
Theorem loads_dumps (j : JSON) : json_value j = true -> loads (dumps j) = Ok j.
Proof.
  intros Hwf. unfold loads.
  pose proof (reads_back_all j Hwf (S (length (dumps j))) []) as R.
  rewrite app_nil_r in R. specialize (R ltac:(pose proof (size_le_length j Hwf); lia) eq_refl).
  destruct (dumps_head j Hwf) as (c & r & E & Hws & _ & _ & Hc). rewrite E in *.
  cbn [startswith]. replace (0xFEFF =? c) with false by (symmetry; apply N.eqb_neq; lia).
  cbn [andb]. rewrite skip_ws_head by exact Hws. rewrite R. reflexivity.
Qed.

(** *** The encoder writes ASCII, which UTF-8 carries unchanged *)

Lemma digit_char_ascii (d : N) : d < 16 -> digit_char d < 0x80.
Proof.
  intros H. unfold digit_char. change (ord "0") with 48. change (ord "a") with 97.
  destruct (d <? 10); lia.
Qed.

Lemma fixed_digits_ascii (base : N) (width : nat) (n : N) :
  0 < base <= 16 -> ascii_text (fixed_digits base width n).
Proof.
  intros Hb. revert n. induction width as [|w IH]; intros n; cbn [fixed_digits].
  - constructor.
  - apply Forall_app. split; [apply IH|]. constructor; [|constructor].
    apply digit_char_ascii. apply N.lt_le_trans with base; [apply N.mod_lt|]; lia.
Qed.

(** A literal of the encoder is ASCII. *)
Ltac ascii_literal := solve [vm_compute; repeat constructor].

Lemma escape_char_ascii (c : N) : ascii_text (escape_char c).
Proof.
  unfold escape_char.
  do 7 (match goal with
        | |- ascii_text (if ?b then _ else _) => destruct b; [ascii_literal|]
        end).
  destruct ((0x20 <=? c) && (c <=? 0x7E)) eqn:Hp.
  - apply andb_prop in Hp as [_ Hp]. apply N.leb_le in Hp.
    constructor; [lia|constructor].
  - destruct (c <? 0x10000); cbv zeta.
    + constructor; [reflexivity|]. constructor; [reflexivity|].
      apply fixed_digits_ascii. lia.
    + apply Forall_app. split;
        (constructor; [reflexivity|]; constructor; [reflexivity|];
         apply fixed_digits_ascii; lia).
Qed.

Lemma basestring_ascii (s : str) : ascii_text (encode_basestring_ascii s).
Proof.
  unfold encode_basestring_ascii. constructor; [reflexivity|].
  apply Forall_app. split; [|repeat constructor].
  induction s as [|c s IH]; cbn [flat_map]; [constructor|].
  apply Forall_app. split; [apply escape_char_ascii|exact IH].
Qed.

Lemma uint_chars_ascii (u : Decimal.uint) : ascii_text (uint_chars u).
Proof. induction u; constructor; try assumption; reflexivity. Qed.

Lemma join_ascii (parts : list str) :
  Forall ascii_text parts -> ascii_text (join sep parts).
Proof.
  induction 1 as [|p ps Hp _ IH]; [constructor|]. rewrite join_cons.
  apply Forall_app. split; [exact Hp|]. destruct ps; [constructor|].
  apply Forall_app. split; [ascii_literal|exact IH].
Qed.

Lemma dumps_ascii (j : JSON) : json_value j = true -> ascii_text (dumps j).
Proof.
  induction j using JSON_induction; intros Hwf.
  - ascii_literal.
  - destruct b; ascii_literal.
  - unfold dumps, repr_int. apply Forall_app. split; [|apply uint_chars_ascii].
    destruct (z <? 0)%Z; repeat constructor.
  - discriminate Hwf.
  - apply basestring_ascii.
  - cbn [json_value] in Hwf. rewrite dumps_array. constructor; [reflexivity|].
    apply Forall_app. split; [|repeat constructor]. apply join_ascii.
    apply Forall_map.
    induction H as [|x xs Hx _ IH]; constructor;
      cbn [forallb] in Hwf; apply andb_prop in Hwf as [? ?]; auto.
  - cbn [json_value] in Hwf. apply andb_prop in Hwf as [Hwf _].
    rewrite dumps_object. constructor; [reflexivity|].
    apply Forall_app. split; [|repeat constructor]. apply join_ascii.
    apply Forall_map.
    induction H as [|[k v] xs Hx _ IH]; constructor;
      cbn [forallb fst snd] in Hwf; apply andb_prop in Hwf as [Hkv ?]; auto.
    apply andb_prop in Hkv as [_ Hv]. unfold member. cbn [fst snd] in *.
    apply Forall_app. split; [apply basestring_ascii|].
    apply Forall_app. split; [ascii_literal|]. exact (Hx Hv).
Qed.

Lemma utf8_encode_ascii (s : str) : ascii_text s -> utf8_encode s = Some s.
Proof.
  induction 1 as [|c s Hc _ IH]; [reflexivity|]. cbn [utf8_encode]. unfold utf8_encode1.
  apply N.ltb_lt in Hc. rewrite Hc, IH. reflexivity.
Qed.

Lemma utf8_decode_ascii (s : str) : ascii_text s -> utf8_decode s = Some s.
Proof.
  induction 1 as [|c s Hc _ IH]; [reflexivity|]. cbn [utf8_decode].
  apply N.ltb_lt in Hc. rewrite Hc, IH. reflexivity.
Qed.

Lemma to_N_byte_of (s : str) : ascii_text s -> map Byte.to_N (map byte_of s) = s.
Proof.
  induction 1 as [|c s Hc _ IH]; [reflexivity|]. cbn [map]. rewrite IH. f_equal.
  unfold byte_of. destruct (Byte.of_N c) as [b|] eqn:E.
  - apply Byte.to_of_N. exact E.
  - apply Byte.of_N_None_iff in E. lia.
Qed.

(** Bytes written by [encode] from ASCII text decode to that text. *)
Lemma encode_decode_ascii (s : str) :
  ascii_text s ->
  str_encode s = Ok (ascii_bytes s) /\ bytes_decode (ascii_bytes s) = Ok s.
Proof.
  intros H. unfold str_encode, bytes_decode, ascii_bytes.
  rewrite utf8_encode_ascii, to_N_byte_of, utf8_decode_ascii by assumption. auto.
Qed.

(** *** The generated fields *)

Lemma ascii_is_text (s : str) : ascii_text s -> is_text s = true.
Proof.
  induction 1 as [|c s Hc _ IH]; [reflexivity|]. cbn [is_text forallb].
  fold (is_text s). rewrite IH, andb_true_r. apply scalar_range. lia.
Qed.

Lemma fixed_digits_length (base : N) (width : nat) (n : N) :
  length (fixed_digits base width n) = width.
Proof.
  revert n. induction width as [|w IH]; intros n; [reflexivity|].
  cbn [fixed_digits]. rewrite length_app, IH. cbn. lia.
Qed.

Lemma ascii_app (a b : str) : ascii_text a -> ascii_text b -> ascii_text (a ++ b).
Proof. intros Ha Hb. apply Forall_app. auto. Qed.

Lemma uuid_str_ascii (u : UUID) : ascii_text (uuid_str u).
Proof.
  unfold uuid_str.
  assert (H : ascii_text (hex_fixed 32 (uuid_int u))) by (apply fixed_digits_ascii; lia).
  repeat match goal with
         | |- ascii_text (take _ _ ++ _) => apply ascii_app; [apply Forall_take|]
         | |- ascii_text (lit _ ++ _) => apply ascii_app; [ascii_literal|]
         end; try apply Forall_drop; exact H.
Qed.

Lemma uuid_str_length (u : UUID) : length (uuid_str u) = 36%nat.
Proof.
  unfold uuid_str. rewrite !length_app, !length_take, !length_drop.
  unfold hex_fixed. rewrite fixed_digits_length. reflexivity.
Qed.

Lemma isoformat_ascii (dt : datetime) : ascii_text (isoformat dt).
Proof.
  unfold isoformat.
  repeat match goal with
         | |- ascii_text (dec_fixed _ _ ++ _) =>
             apply ascii_app; [apply fixed_digits_ascii; lia|]
         | |- ascii_text (lit _ ++ _) => apply ascii_app; [ascii_literal|]
         | |- ascii_text ((if _ then _ else _) ++ _) => apply ascii_app
         end.
  - destruct (microsecond dt =? 0); [constructor|].
    apply ascii_app; [ascii_literal|apply fixed_digits_ascii; lia].
  - ascii_literal.
Qed.

Lemma isoformat_utc (dt : datetime) : exists body, isoformat dt = body ++ lit "+00:00".
Proof. unfold isoformat. eexists. rewrite !app_assoc. reflexivity. Qed.

(** *** The generated fields, read back *)

Lemma lower_hex_digit (d : N) : d < 16 -> Spec.lower_hex (digit_char d) = Some d.
Proof.
  intros H.
  assert (E : d = 0 \/ d = 1 \/ d = 2 \/ d = 3 \/ d = 4 \/ d = 5 \/ d = 6 \/ d = 7 \/
              d = 8 \/ d = 9 \/ d = 10 \/ d = 11 \/ d = 12 \/ d = 13 \/ d = 14 \/ d = 15)
    by lia.
  repeat (destruct E as [->|E]; [reflexivity|]). subst d. reflexivity.
Qed.

Lemma decimal_digit (d : N) : d < 10 -> Spec.decimal (digit_char d) = Some d.
Proof.
  intros H.
  assert (E : d = 0 \/ d = 1 \/ d = 2 \/ d = 3 \/ d = 4 \/ d = 5 \/ d = 6 \/ d = 7 \/
              d = 8 \/ d = 9) by lia.
  repeat (destruct E as [->|E]; [reflexivity|]). subst d. reflexivity.
Qed.

Lemma number_app base digit acc a b :
  Spec.number base digit acc (a ++ b)
  = match Spec.number base digit acc a with
    | Some x => Spec.number base digit x b
    | None => None
    end.
Proof.
  revert acc. induction a as [|c a IH]; intros acc; cbn; [reflexivity|].
  destruct (digit c); [apply IH|reflexivity].
Qed.

Lemma number_fixed_digits base digit width n acc :
  0 < base ->
  (forall d, d < base -> digit (digit_char d) = Some d) ->
  Spec.number base digit acc (fixed_digits base width n)
  = Some (acc * base ^ N.of_nat width + n mod base ^ N.of_nat width).
Proof.
  intros Hb Hdigit. revert n acc. induction width as [|w IH]; intros n acc.
  - cbn. rewrite N.mod_1_r. f_equal. lia.
  - cbn [fixed_digits]. rewrite number_app, IH. cbn [Spec.number].
    rewrite Hdigit by (apply N.mod_lt; lia). f_equal.
    rewrite Nat2N.inj_succ, N.pow_succ_r', N.Div0.mod_mul_r.
    set (p := base ^ N.of_nat w). set (q := (n / base) mod p). set (r := n mod base).
    clearbody p q r. lia.
Qed.

Lemma decimal_field (width : nat) (n : N) :
  n < 10 ^ N.of_nat width ->
  Spec.number 10 Spec.decimal 0 (dec_fixed width n) = Some n.
Proof.
  intros H. unfold dec_fixed.
  rewrite number_fixed_digits by (try apply decimal_digit; lia).
  rewrite N.mod_small by exact H. reflexivity.
Qed.

(** The layout of [str(u)], whatever the 32 digits. *)
Lemma uuid_layout (hex : str) :
  length hex = 32%nat ->
  let s := take 8 hex ++ lit "-" ++ take 4 (drop 8 hex) ++ lit "-" ++ take 4 (drop 12 hex)
           ++ lit "-" ++ take 4 (drop 16 hex) ++ lit "-" ++ drop 20 hex in
  ((length s =? 36)%nat && Spec.has s 8 (lit "-") && Spec.has s 13 (lit "-")
   && Spec.has s 18 (lit "-") && Spec.has s 23 (lit "-")) = true
  /\ take 8 s ++ take 4 (drop 9 s) ++ take 4 (drop 14 s) ++ take 4 (drop 19 s) ++ drop 24 s
     = hex.
Proof.
  intros H.
  do 32 (destruct hex as [|? hex]; [discriminate H|]).
  destruct hex; [|discriminate H]. split; reflexivity.
Qed.

Lemma uuid_read_back (u : UUID) :
  uuid_ok u = true -> Spec.uuid_of_text (uuid_str u) = Some u.
Proof.
  intros Hu. unfold uuid_ok in Hu. apply N.ltb_lt in Hu.
  unfold Spec.uuid_of_text, uuid_str.
  destruct (uuid_layout (hex_fixed 32 (uuid_int u))) as [Hs Hd].
  { apply fixed_digits_length. }
  cbv zeta in Hs, Hd. rewrite Hs, Hd. unfold hex_fixed.
  rewrite number_fixed_digits by (try apply lower_hex_digit; lia).
  rewrite N.mod_small by exact Hu. destruct u. reflexivity.
Qed.

(** The layout of [isoformat], whatever the digits. *)
Lemma iso_layout (a b c d e f frac : str) :
  length a = 4%nat -> length b = 2%nat -> length c = 2%nat -> length d = 2%nat ->
  length e = 2%nat -> length f = 2%nat ->
  let s := a ++ lit "-" ++ b ++ lit "-" ++ c ++ lit "T" ++ d ++ lit ":" ++ e ++ lit ":"
           ++ f ++ frac ++ lit "+00:00" in
  (Spec.has s 4 (lit "-") && Spec.has s 7 (lit "-") && Spec.has s 10 (lit "T")
   && Spec.has s 13 (lit ":") && Spec.has s 16 (lit ":")) = true
  /\ take 4 (drop 0 s) = a /\ take 2 (drop 5 s) = b /\ take 2 (drop 8 s) = c
  /\ take 2 (drop 11 s) = d /\ take 2 (drop 14 s) = e /\ take 2 (drop 17 s) = f
  /\ drop 19 s = frac ++ lit "+00:00".
Proof.
  intros Ha Hb Hc Hd He Hf.
  do 4 (destruct a as [|? a]; [discriminate Ha|]). destruct a; [|discriminate Ha].
  do 2 (destruct b as [|? b]; [discriminate Hb|]). destruct b; [|discriminate Hb].
  do 2 (destruct c as [|? c]; [discriminate Hc|]). destruct c; [|discriminate Hc].
  do 2 (destruct d as [|? d]; [discriminate Hd|]). destruct d; [|discriminate Hd].
  do 2 (destruct e as [|? e]; [discriminate He|]). destruct e; [|discriminate He].
  do 2 (destruct f as [|? f]; [discriminate Hf|]). destruct f; [|discriminate Hf].
  repeat split; reflexivity.
Qed.

Lemma iso_fraction (s g : str) :
  length g = 6%nat ->
  drop 19 s = (lit "." ++ g) ++ lit "+00:00" ->
  str_eqb (drop 19 s) (lit "+00:00") = false
  /\ (Spec.has s 19 (lit ".") && str_eqb (drop 26 s) (lit "+00:00")) = true
  /\ take 6 (drop 20 s) = g.
Proof.
  intros Hg Hs.
  assert (E20 : drop 20 s = g ++ lit "+00:00").
  { change 20%nat with (19 + 1)%nat. rewrite <- drop_drop, Hs. reflexivity. }
  assert (E26 : drop 26 s = lit "+00:00").
  { change 26%nat with (20 + 6)%nat. rewrite <- drop_drop, E20.
    rewrite drop_app_length'; [reflexivity|symmetry; exact Hg]. }
  unfold Spec.has. rewrite Hs, E20, E26.
  split; [reflexivity|]. split; [reflexivity|].
  rewrite take_app_length'; [reflexivity|symmetry; exact Hg].
Qed.

Lemma iso_read_back (dt : datetime) :
  datetime_ok dt = true -> Spec.iso8601_utc (isoformat dt) = Some dt.
Proof.
  intros Hok. pose proof Hok as Hr. unfold datetime_ok in Hr.
  rewrite !andb_true_iff, !N.leb_le in Hr.
  destruct Hr as (((((((((Hy1 & Hy) & Hm1) & Hm) & Hd1) & Hd) & Hh) & Hmi) & Hs) & Hus).
  unfold Spec.iso8601_utc, isoformat.
  match goal with
  | |- context [(if microsecond dt =? 0 then ?x else ?y) ++ lit "+00:00"] =>
      remember (if microsecond dt =? 0 then x else y) as frac eqn:Hfrac
  end.
  destruct (iso_layout (dec_fixed 4 (year dt)) (dec_fixed 2 (month dt))
              (dec_fixed 2 (day dt)) (dec_fixed 2 (hour dt)) (dec_fixed 2 (minute dt))
              (dec_fixed 2 (second dt)) frac)
    as (Hsep & E1 & E2 & E3 & E4 & E5 & E6 & E7); try apply fixed_digits_length.
  cbv zeta in Hsep, E1, E2, E3, E4, E5, E6, E7. rewrite Hsep.
  unfold Spec.field. rewrite E1, E2, E3, E4, E5, E6.
  rewrite !decimal_field by (cbn; lia). cbn [mbind option_bind].
  destruct (microsecond dt =? 0) eqn:Hz; subst frac.
  - apply N.eqb_eq in Hz. rewrite E7. cbn [app].
    change (str_eqb (lit "+00:00") (lit "+00:00")) with true. cbn [mbind option_bind].
    rewrite <- Hz. destruct dt. cbn in *. rewrite Hok. reflexivity.
  - destruct (iso_fraction _ _ (fixed_digits_length _ _ _) E7) as (F1 & F2 & F3).
    rewrite F1, F2. unfold Spec.field. rewrite F3.
    rewrite decimal_field by (cbn; lia). cbn [mbind option_bind].
    destruct dt. cbn in *. rewrite Hok. reflexivity.
Qed.

Lemma envelope_json_value u subject now data :
  is_text subject = true -> json_value (JObj data) = true ->
  json_value (make_envelope u subject now data) = true.
Proof.
  intros Hs Hd. unfold make_envelope.
  cbn [json_value forallb fst snd] in *. fold json_value in *.
  rewrite Hs, (ascii_is_text _ (uuid_str_ascii u)), (ascii_is_text _ (isoformat_ascii now)).
  rewrite Hd. reflexivity.
Qed.

(** ** Reading executions *)

Section Executions.

Context {A B : Type}.

Lemma Runs_ret (a b : A) (t : list Event) : Runs (Ret a) t b <-> t = [] /\ a = b.
Proof. reflexivity. Qed.

Lemma Runs_vis (c : Call) (k : Resp c -> Prog A) (t : list Event) (a : A) :
  Runs (Vis c k) t a <-> exists r t', t = Ev c r :: t' /\ Runs (k r) t' a.
Proof. reflexivity. Qed.

Lemma Runs_bind (p : Prog A) (f : A -> Prog B) (t : list Event) (b : B) :
  Runs (bind p f) t b <->
  exists t1 a t2, t = t1 ++ t2 /\ Runs p t1 a /\ Runs (f a) t2 b.
Proof.
  revert t. induction p as [a|c k IH]; intros t; cbn [bind Runs].
  - split.
    + intros H. exists [], a, t. auto.
    + intros (t1 & a' & t2 & -> & [-> <-] & H). exact H.
  - split.
    + intros (r & t' & -> & H). apply IH in H as (t1 & a & t2 & -> & H1 & H2).
      exists (Ev c r :: t1), a, t2. split; [reflexivity|]. split; [|exact H2].
      exists r, t1. auto.
    + intros (t1 & a & t2 & -> & (r & t' & -> & H1) & H2).
      exists r, (t' ++ t2). split; [reflexivity|]. apply IH.
      exists t', a, t2. auto.
Qed.

(** Running against an environment is one execution. *)
Lemma run_Runs {W} (env : Env W) (p : Prog A) (w : W) :
  Runs p (run env p w).1.1 (run env p w).2.
Proof.
  revert w. induction p as [a|c k IH]; intros w; cbn [run Runs].
  - auto.
  - destruct (env c w) as [w1 r] eqn:E. specialize (IH r w1).
    destruct (run env (k r) w1) as [[t w2] a]. cbn in *. eauto.
Qed.

End Executions.

(** ** Stepping through an execution *)

Tactic Notation "runs_call" hyp(H) "as" simple_intropattern(r) :=
  cbn in H; destruct H as (r & ? & -> & H); cbn in H.
Ltac runs_end H := cbn in H; destruct H as [-> <-].

(** ** The connection guard *)

(** C5 (as amended).  While the client holds no JetStream context, which is
    the case from construction until [connect] has obtained one, every
    [publish] and every [subscribe] returns at once raising
    [RuntimeError("NATS not connected. Call connect() first.")]: the client
    is unchanged and no call leaves it.  [close] never changes the client,
    so it does not bring this state back. *)
Theorem not_connected_guard :
  (forall self subject data,
      _js self = None -> publish subject data self = Ret (self, Raised not_connected))
  /\ (forall self subject handler durable_name,
      _js self = None ->
      subscribe subject handler durable_name self = Ret (self, Raised not_connected))
  /\ (forall nats_url stream_name, _js (__init__ nats_url stream_name) = None)
  /\ (forall self t out, Runs (close self) t out -> out.1 = self).
Proof.
  repeat split.
  - intros self subject data H. unfold publish. cbn. rewrite H. reflexivity.
  - intros self subject handler d H. unfold subscribe. cbn. rewrite H. reflexivity.
  - intros self t out H. unfold close in H. cbn in H.
    destruct (_nc self) as [nc|].
    + runs_call H as [[]|e].
      * runs_call H as []. runs_end H. reflexivity.
      * runs_end H. reflexivity.
    + runs_end H. reflexivity.
Qed.

(** A freshly constructed client refuses to publish. *)
Lemma not_connected_guard_witness :
  publish (lit "art.created") [] (__init__ default_nats_url default_stream_name)
  = Ret (__init__ default_nats_url default_stream_name, Raised not_connected).
Proof.
  apply (proj1 not_connected_guard). reflexivity.
Defined.

(** C5 as stated fails: after a successful [connect] and a successful
    [close], [publish] is not refused; it goes on to the environment. *)
Lemma guard_open_after_close :
  ~ (forall self0 t1 self1 t2 self2 subject data t3 out,
        Runs (connect self0) t1 (self1, Ok tt) ->
        Runs (close self1) t2 (self2, Ok tt) ->
        Runs (publish subject data self2) t3 out ->
        t3 = [] /\ out = (self2, Raised not_connected)).
Proof.
  intros claim.
  assert (H1 : Runs (connect fresh_client)
                 (run Broker.env (connect fresh_client) Broker.empty).1.1
                 (connected 0%nat, Ok tt)) by exact (run_Runs _ _ _).
  assert (H2 : Runs (close (connected 0%nat))
                 (run Broker.env (close (connected 0%nat)) Broker.empty).1.1
                 (connected 0%nat, Ok tt)) by exact (run_Runs _ _ _).
  pose proof (run_Runs Broker.env (publish (lit "art.created") [] (connected 0%nat))
                Broker.empty) as H3.
  destruct (claim _ _ _ _ _ _ _ _ _ H1 H2 H3) as [E _].
  vm_compute in E. discriminate E.
Qed.

(** ** close *)

(** C8 (as amended).  On a client that never opened a connection [close]
    does nothing and returns normally.  On a client that holds a connection,
    every [close], a repeated one too, asks the transport to drain; it logs
    [nats_disconnected] when the drain returns and raises what the drain
    raised otherwise; the client is unchanged either way. *)
Theorem close_drains_whenever_connection_set :
  (forall self, _nc self = None -> close self = Ret (self, Ok tt))
  /\ (forall self nc t out,
        _nc self = Some nc -> Runs (close self) t out ->
        (t = [Ev (nc_drain nc) (Ok tt); Ev (logger_info "nats_disconnected" []) tt]
         /\ out = (self, Ok tt))
        \/ (exists e, t = [Ev (nc_drain nc) (Raised e)] /\ out = (self, Raised e))).
Proof.
  split.
  - intros self H. unfold close. cbn. rewrite H. reflexivity.
  - intros self nc t out Hnc H. unfold close in H. cbn in H. rewrite Hnc in H.
    runs_call H as [[]|e].
    + runs_call H as []. runs_end H. left. auto.
    + runs_end H. right. eauto.
Qed.

(** [close] on a freshly constructed client. *)
Lemma close_drains_whenever_connection_set_witness :
  close fresh_client = Ret (fresh_client, Ok tt).
Proof. apply (proj1 close_drains_whenever_connection_set). reflexivity. Defined.

(** C8 as stated fails: a second [close] after a successful one is not
    silent; it drains the same connection again. *)
Lemma second_close_drains_again :
  ~ (forall self0 t1 self1 t2 self2 t3 out,
        Runs (connect self0) t1 (self1, Ok tt) ->
        Runs (close self1) t2 (self2, Ok tt) ->
        Runs (close self2) t3 out ->
        t3 = [] /\ out = (self2, Ok tt)).
Proof.
  intros claim.
  assert (H1 : Runs (connect fresh_client)
                 (run Broker.env (connect fresh_client) Broker.empty).1.1
                 (connected 0%nat, Ok tt)) by exact (run_Runs _ _ _).
  assert (H2 : Runs (close (connected 0%nat))
                 (run Broker.env (close (connected 0%nat)) Broker.empty).1.1
                 (connected 0%nat, Ok tt)) by exact (run_Runs _ _ _).
  destruct (claim _ _ _ _ _ _ _ H1 H2 H2) as [E _].
  vm_compute in E. discriminate E.
Qed.

(** ** What publish gives back *)

(** C6 (as amended).  A [publish] that succeeds on a connected client made
    exactly four calls: [uuid4], the clock, the broker's [publish], and one
    [event_published] log record carrying the subject and the stream and
    sequence number of the broker's acknowledgment.  It returns [None] and
    leaves the client unchanged. *)
Theorem publish_logs_ack_and_returns_none :
  forall self js subject data t self' v,
    _js self = Some js ->
    Runs (publish subject data self) t (self', Ok v) ->
    exists u now payload ack,
      t = [Ev uuid4 u; Ev datetime_now_utc now;
           Ev (js_publish js subject payload) (Ok ack);
           Ev (logger_info "event_published"
                 [("subject", LStr subject); ("stream", LStr (ack_stream ack));
                  ("seq", LInt (ack_seq ack))]) tt]
      /\ self' = self /\ v = tt.
Proof.
  intros self js subject data t self' v Hjs H.
  unfold publish in H. cbn in H. rewrite Hjs in H.
  runs_call H as u. runs_call H as now.
  destruct (str_encode _) as [payload|e] eqn:Hp; cbn in H.
  - runs_call H as [ack|e].
    + runs_call H as []. cbn in H. destruct H as [-> H]. injection H as <- <-.
      exists u, now, payload, ack. auto.
    + destruct H as [_ H]. discriminate H.
  - destruct H as [_ H]. discriminate H.
Qed.

(** A publish on a connected client, run against the broker. *)
Lemma publish_logs_ack_and_returns_none_witness :
  exists u now payload ack,
    (run Broker.env (publish (lit "art.created") [] (connected 0%nat)) Broker.empty).1.1
    = [Ev uuid4 u; Ev datetime_now_utc now;
       Ev (js_publish (jetstream 0%nat) (lit "art.created") payload) (Ok ack);
       Ev (logger_info "event_published"
             [("subject", LStr (lit "art.created")); ("stream", LStr (ack_stream ack));
              ("seq", LInt (ack_seq ack))]) tt]
    /\ connected 0%nat = connected 0%nat /\ tt = tt.
Proof.
  apply (publish_logs_ack_and_returns_none (connected 0%nat) (jetstream 0%nat)
           (lit "art.created") [] _ (connected 0%nat) tt).
  - reflexivity.
  - exact (run_Runs Broker.env (publish (lit "art.created") [] (connected 0%nat))
             Broker.empty).
Defined.

(** C6 as stated fails: no function of the value [publish] returns gives
    the broker's acknowledgment, since two publishes acknowledged with
    different sequence numbers return the same value. *)
Lemma publish_returns_none :
  ~ (exists f : unit -> PubAck,
        forall self subject data t self' v js payload ack,
          Runs (publish subject data self) t (self', Ok v) ->
          Ev (js_publish js subject payload) (Ok ack) ∈ t ->
          f v = ack).
Proof.
  intros [f claim].
  pose (w1 := {| Broker.streams := ∅; Broker.conns := 1; Broker.stored := 1 |}).
  assert (H0 : Runs (publish (lit "art.created") [] (connected 0%nat))
                 (run Broker.env (publish (lit "art.created") [] (connected 0%nat))
                    Broker.empty).1.1
                 (connected 0%nat, Ok tt)) by exact (run_Runs _ _ _).
  assert (H1 : Runs (publish (lit "art.created") [] (connected 0%nat))
                 (run Broker.env (publish (lit "art.created") [] (connected 0%nat)) w1).1.1
                 (connected 0%nat, Ok tt)) by exact (run_Runs _ _ _).
  eapply claim in H0; [|eapply (list_elem_of_lookup_2 _ 2); vm_compute; reflexivity].
  eapply claim in H1; [|eapply (list_elem_of_lookup_2 _ 2); vm_compute; reflexivity].
  rewrite H0 in H1. discriminate H1.
Qed.

(** ** The delivery loop *)

(** A message whose bytes are not UTF-8 raises twice: in the [try], and
    again in the [except] block, which decodes the same bytes for the log
    record before it logs or acknowledges anything. *)
Lemma process_undecodable subject handler m self e :
  bytes_decode (msg_data m) = Raised e ->
  process subject handler m self = Ret (self, Raised e).
Proof.
  intros H. unfold process, try_except. cbn. rewrite H. cbn.
  destruct (isinstance_Exception e); reflexivity.
Qed.

Lemma deliver_undecodable subject handler m rest self e :
  bytes_decode (msg_data m) = Raised e ->
  deliver subject handler (m :: rest) self = Ret (self, Raised e).
Proof.
  intros H. cbn [deliver]. unfold bindM. rewrite (process_undecodable _ _ _ _ _ H).
  reflexivity.
Qed.

(** C2, at a message that is not valid UTF-8 (the single byte [0xFF]): the
    loop makes no call at all, neither log record nor negative
    acknowledgment, and ends raising [UnicodeDecodeError]; the messages
    after it are not processed. *)
Theorem undecodable_bytes_end_the_loop :
  forall subject handler seq rest self,
    deliver subject handler ({| msg_seq := seq; msg_data := [Byte.xff] |} :: rest) self
    = Ret (self, Raised UnicodeDecodeError).
Proof. intros. apply deliver_undecodable. reflexivity. Qed.

Lemma deliver_cons subject handler m rest self t out :
  Runs (deliver subject handler (m :: rest) self) t out <->
  exists t1 self1 r t2,
    t = t1 ++ t2 /\ Runs (process subject handler m self) t1 (self1, r)
    /\ match r with
       | Ok _ => Runs (deliver subject handler rest self1) t2 out
       | Raised e => t2 = [] /\ out = (self1, Raised e)
       end.
Proof.
  cbn [deliver]. unfold bindM at 1. rewrite Runs_bind. split.
  - intros (t1 & [self1 r] & t2 & -> & H1 & H2). exists t1, self1, r, t2.
    repeat split; try assumption. cbn in H2. destruct r; [exact H2|].
    cbn in H2. destruct H2 as [-> <-]. auto.
  - intros (t1 & self1 & r & t2 & -> & H1 & H2). exists t1, (self1, r), t2.
    repeat split; try assumption. cbn. destruct r; [exact H2|].
    destruct H2 as [-> ->]. cbn. auto.
Qed.

Lemma loads_raises text e : loads text = Raised e -> e = JSONDecodeError.
Proof.
  unfold loads. destruct (startswith _ _); [intros [= <-]; reflexivity|].
  destruct (scan_once _ _) as [[j r]|]; [destruct (skip_ws r)|];
    intros [= <-]; reflexivity.
Qed.

Lemma py_get_raises o key default e :
  py_get o key default = Raised e -> e = no_attribute o "get".
Proof. unfold py_get. destruct o; intros [= <-]; reflexivity. Qed.

Lemma bytes_decode_raises bs e : bytes_decode bs = Raised e -> e = UnicodeDecodeError.
Proof. unfold bytes_decode. destruct (utf8_decode _); intros [= <-]; reflexivity. Qed.

(** One message whose text, envelope and payload were obtained. *)
Lemma process_decoded subject handler m self text envelope data t self1 r :
  bytes_decode (msg_data m) = Ok text ->
  loads text = Ok envelope ->
  py_get envelope (lit "data") (JObj []) = Ok data ->
  Runs (process subject handler m self) t (self1, r) ->
  self1 = self /\
  exists h t1,
    t = Ev (handler_call handler data) h :: t1
    /\ match h with
       | Ok _ =>
           exists a t2,
             t1 = Ev (msg_ack m) a :: t2
             /\ match a with
                | Ok _ => t2 = [] /\ r = Ok tt
                | Raised e => after_raise subject m text e t2 r
                end
       | Raised e => after_raise subject m text e t1 r
       end.
Proof.
  intros Hd Hl Hg H. unfold process, try_except in H. cbn in H.
  rewrite Hd in H. cbn in H. rewrite Hl in H. cbn in H. rewrite Hg in H. cbn in H.
  unfold after_raise.
  runs_call H as [[]|e].
  - runs_call H as [[]|e].
    + cbn in H. destruct H as [-> H]. injection H as <- <-. split; [reflexivity|].
      eexists (Ok tt), _. split; [reflexivity|]. eexists (Ok tt), _. auto.
    + destruct (isinstance_Exception e) eqn:He; cbn in H.
      * runs_call H as []. runs_call H as n.
        destruct n as [[]|e']; cbn in H; destruct H as [-> H]; injection H as <- <-;
          (split; [reflexivity|]); (eexists (Ok tt), _; split; [reflexivity|]);
          (eexists (Raised e), _; split; [reflexivity|]); rewrite He; eauto.
      * destruct H as [-> H]. injection H as <- <-. split; [reflexivity|].
        eexists (Ok tt), _. split; [reflexivity|].
        eexists (Raised e), _. split; [reflexivity|]. rewrite He. auto.
  - destruct (isinstance_Exception e) eqn:He; cbn in H.
    + runs_call H as []. runs_call H as n.
      destruct n as [[]|e']; cbn in H; destruct H as [-> H]; injection H as <- <-;
        (split; [reflexivity|]); (eexists (Raised e), _; split; [reflexivity|]);
        rewrite He; eauto.
    + destruct H as [-> H]. injection H as <- <-. split; [reflexivity|].
      eexists (Raised e), _. split; [reflexivity|]. rewrite He. auto.
Qed.

(** One message whose text or envelope could not be obtained. *)
Lemma process_undeserializable subject handler m self text e t self1 r :
  bytes_decode (msg_data m) = Ok text ->
  (loads text = Raised e
   \/ exists envelope, loads text = Ok envelope
                     /\ py_get envelope (lit "data") (JObj []) = Raised e) ->
  Runs (process subject handler m self) t (self1, r) ->
  self1 = self /\
  exists n, t = [Ev (logger_exception "event_handler_error" (error_record subject text) e) tt;
                 Ev (msg_nak m) n] /\ r = n.
Proof.
  intros Hd Hl H.
  assert (He : isinstance_Exception e = true).
  { destruct Hl as [Hl|(envelope & _ & Hg)].
    - apply loads_raises in Hl as ->. reflexivity.
    - apply py_get_raises in Hg as ->. reflexivity. }
  unfold process, try_except in H. cbn in H.
  rewrite Hd in H. cbn in H.
  destruct Hl as [Hl|(envelope & Hl & Hg)]; rewrite Hl in H; cbn in H;
    [|rewrite Hg in H; cbn in H];
    (rewrite He in H;
     runs_call H as []; runs_call H as n;
     destruct n as [[]|e']; cbn in H; destruct H as [-> H]; injection H as <- <-;
     (split; [reflexivity|]); eauto).
Qed.

Lemma undeserializable_text_is_nacked subject handler m rest self text e t out :
  bytes_decode (msg_data m) = Ok text ->
  (loads text = Raised e
   \/ exists envelope, loads text = Ok envelope
                     /\ py_get envelope (lit "data") (JObj []) = Raised e) ->
  Runs (deliver subject handler (m :: rest) self) t out ->
  transport_ok t ->
  exists t', t = Ev (logger_exception "event_handler_error" (error_record subject text) e) tt
                 :: Ev (msg_nak m) (Ok tt) :: t'
             /\ Runs (deliver subject handler rest self) t' out.
Proof.
  intros Hd Hl H Hok. apply deliver_cons in H as (t1 & self1 & r & t2 & -> & H1 & H2).
  eapply process_undeserializable in H1 as (E1 & n & E2 & E3); [|eassumption..].
  subst self1 t1 r.
  destruct n as [[]|e'].
  - exists t2. auto.
  - unfold transport_ok in Hok. cbn in Hok. discriminate Hok.
Qed.

(** C3 (as amended).  For a delivered message whose bytes decode and parse
    to a JSON object, the first call of the loop is the handler, with the
    object's [data] (the empty mapping when the key is missing).  If the
    handler returns, [ack] is called; if that returns too, nothing else is
    done for the message and the loop goes on with the remaining messages.
    If the handler or the [ack] call raises an [Exception], it is logged
    and [nak] is called (after a failed [ack] the message thus gets both
    calls); the loop goes on if [nak] returns and ends with its error if it
    raises.  If the handler or the [ack] call raises something that is no
    [Exception], nothing is logged or acknowledged and the loop ends with
    it. *)
Theorem handler_outcome_decides_acknowledgment :
  forall subject handler m rest self text fields t out,
    bytes_decode (msg_data m) = Ok text ->
    loads text = Ok (JObj fields) ->
    Runs (deliver subject handler (m :: rest) self) t out ->
    let data := default (JObj []) (dict_lookup (lit "data") fields) in
    let goes_on t' := Runs (deliver subject handler rest self) t' out in
    let ends_with e t' := t' = [] /\ out = (self, Raised e) in
    let fails_with e t' :=
      if isinstance_Exception e
      then exists n t'',
             t' = Ev (logger_exception "event_handler_error"
                        (error_record subject text) e) tt
                  :: Ev (msg_nak m) n :: t''
             /\ match n with Ok _ => goes_on t'' | Raised e' => ends_with e' t'' end
      else ends_with e t' in
    exists h t1,
      t = Ev (handler_call handler data) h :: t1
      /\ match h with
         | Ok _ =>
             exists a t2,
               t1 = Ev (msg_ack m) a :: t2
               /\ match a with Ok _ => goes_on t2 | Raised e => fails_with e t2 end
         | Raised e => fails_with e t1
         end.
Proof.
  intros subject handler m rest self text fields t out Hd Hl H
    data goes_on ends_with fails_with.
  apply deliver_cons in H as (t1 & self1 & r & t2 & -> & H1 & H2).
  eapply (process_decoded _ _ _ _ _ _ data) in H1; [|eassumption|eassumption|reflexivity].
  destruct H1 as (-> & h & t3 & -> & H1).
  exists h, (t3 ++ t2). split; [reflexivity|].
  assert (Hf : forall e t', after_raise subject m text e t' r -> fails_with e (t' ++ t2)).
  { intros e t' Ha. unfold after_raise in Ha. unfold fails_with.
    destruct (isinstance_Exception e).
    - destruct Ha as (n & -> & <-). exists r, t2. split; [reflexivity|].
      destruct r as [[]|e']; exact H2.
    - destruct Ha as [-> ->]. exact H2. }
  destruct h as [[]|e]; [|auto].
  destruct H1 as (a & t4 & -> & H1). exists a, (t4 ++ t2). split; [reflexivity|].
  destruct a as [[]|e]; [|auto]. destruct H1 as [-> ->]. exact H2.
Qed.

(** C9.  For a delivered message whose bytes decode and parse to a JSON
    object without a [data] key, the first call of the loop is the handler,
    with the empty mapping; if the handler returns, the next call is the
    message's [ack]. *)
Theorem missing_data_key_defaults_to_empty_mapping :
  forall subject handler m rest self text fields t out,
    bytes_decode (msg_data m) = Ok text ->
    loads text = Ok (JObj fields) ->
    dict_lookup (lit "data") fields = None ->
    Runs (deliver subject handler (m :: rest) self) t out ->
    exists r t',
      t = Ev (handler_call handler (JObj [])) r :: t'
      /\ (r = Ok tt -> exists a t'', t' = Ev (msg_ack m) a :: t'').
Proof.
  intros subject handler m rest self text fields t out Hd Hl Hk H.
  apply deliver_cons in H as (t1 & self1 & r & t2 & -> & H1 & H2).
  eapply (process_decoded _ _ _ _ _ _ (JObj [])) in H1;
    [|eassumption|eassumption|unfold py_get; rewrite Hk; reflexivity].
  destruct H1 as (-> & h & t3 & -> & H1).
  exists h, (t3 ++ t2). split; [reflexivity|]. intros ->.
  destruct H1 as (a & t4 & -> & _). eauto.
Qed.

(** A bare object, handled with the empty mapping. *)
Lemma missing_data_key_defaults_to_empty_mapping_witness :
  exists r t',
    (run Broker.env (deliver (lit "art.>") 0%nat [example_bare_object] fresh_client)
       Broker.empty).1.1
    = Ev (handler_call 0%nat (JObj [])) r :: t'
    /\ (r = Ok tt -> exists a t'', t' = Ev (msg_ack example_bare_object) a :: t'').
Proof.
  apply (missing_data_key_defaults_to_empty_mapping (lit "art.>") 0%nat example_bare_object
           [] fresh_client
           (lit "{" ++ quoted "subject" ++ lit ": " ++ quoted "art.created" ++ lit "}")
           [(lit "subject", JStr (lit "art.created"))] _
           (run Broker.env (deliver (lit "art.>") 0%nat [example_bare_object] fresh_client)
              Broker.empty).2).
  - vm_compute. reflexivity.
  - vm_compute. reflexivity.
  - reflexivity.
  - apply run_Runs.
Defined.

(** One enveloped message and a handler that raises [ValueError]: logged
    and negatively acknowledged. *)
Lemma handler_outcome_decides_acknowledgment_witness :
  let out := run (answering (Raised (OtherError "ValueError")) (Ok tt) (Ok tt))
               (deliver (lit "art.created") 0%nat [example_event] fresh_client)
               Broker.empty in
  exists h t1,
    out.1.1 = Ev (handler_call 0%nat artwork) h :: t1
    /\ (h = Raised (OtherError "ValueError") ->
        exists n t2,
          t1 = Ev (logger_exception "event_handler_error"
                     (error_record (lit "art.created") example_text)
                     (OtherError "ValueError")) tt
               :: Ev (msg_nak example_event) n :: t2).
Proof.
  intros out.
  destruct (handler_outcome_decides_acknowledgment (lit "art.created") 0%nat example_event
              [] fresh_client example_text
              [(lit "subject", JStr (lit "art.created")); (lit "data", artwork)]
              out.1.1 out.2)
    as (h & t1 & E & H).
  - vm_compute. reflexivity.
  - vm_compute. reflexivity.
  - apply run_Runs.
  - exists h, t1. split; [exact E|]. intros ->. cbn in H.
    destruct H as (n & t2 & -> & _). eauto.
Defined.

(** C3 as stated fails.  The handler completes without error and the [ack]
    call raises: the message is acknowledged a second time, negatively;
    that call raises as well and the loop stops, the next message left
    unprocessed. *)
Lemma failed_ack_is_followed_by_nak :
  ~ (forall subject handler m rest self text fields t out,
        bytes_decode (msg_data m) = Ok text ->
        loads text = Ok (JObj fields) ->
        Runs (deliver subject handler (m :: rest) self) t out ->
        let data := default (JObj []) (dict_lookup (lit "data") fields) in
        (exists a t',
            t = Ev (handler_call handler data) (Ok tt) :: Ev (msg_ack m) a :: t'
            /\ Runs (deliver subject handler rest self) t' out)
        \/ (exists e n t',
            t = Ev (handler_call handler data) (Raised e)
                :: Ev (logger_exception "event_handler_error"
                         (error_record subject text) e) tt
                :: Ev (msg_nak m) n :: t'
            /\ Runs (deliver subject handler rest self) t' out)).
Proof.
  intros claim.
  pose proof (run_Runs
                (answering (Ok tt) (Raised (OtherError "TimeoutError"))
                   (Raised (OtherError "TimeoutError")))
                (deliver (lit "art.created") 0%nat [example_event; example_bare_object]
                   fresh_client) Broker.empty) as H.
  apply (claim _ _ _ _ _ example_text
           [(lit "subject", JStr (lit "art.created")); (lit "data", artwork)]) in H;
    [|vm_compute; reflexivity..].
  destruct H as [(a & t' & E & H)|(e & n & t' & E & _)].
  - apply (f_equal (drop 2)) in E. vm_compute in E. subst t'.
    apply deliver_cons in H as (t1 & self1 & r & t2 & E & H1 & _).
    eapply (process_decoded _ _ _ _ _ _ (JObj [])) in H1;
      [|vm_compute; reflexivity..].
    destruct H1 as (_ & h & t3 & -> & _). discriminate E.
  - apply (f_equal (fun t => count is_error_log (take 2 t))) in E.
    vm_compute in E. discriminate E.
Qed.

(** ** The default durable name *)

Lemma subscribe_registers self js subject handler durable_name t out :
  _js self = Some js ->
  Runs (subscribe subject handler durable_name self) t out ->
  exists r t',
    t = Ev (js_subscribe js subject (default (default_durable_name subject) durable_name)) r
        :: t'.
Proof.
  intros Hjs H. unfold subscribe in H. cbn in H. rewrite Hjs in H.
  destruct durable_name as [d|]; runs_call H as r; eauto.
Qed.

(** C4.  The default durable name of a subject is the subject with every
    [.] replaced by [-] and every [>] replaced by [all]; a [subscribe]
    without a durable name on a connected client registers the consumer
    under it; ["art.>"] gives ["art-all"] and ["art.created"] gives
    ["art-created"]. *)
Theorem default_durable_name_derivation :
  (forall subject, default_durable_name subject = Spec.durable_name subject)
  /\ (forall self js subject handler t out,
        _js self = Some js ->
        Runs (subscribe subject handler None self) t out ->
        exists r t', t = Ev (js_subscribe js subject (Spec.durable_name subject)) r :: t')
  /\ default_durable_name (lit "art.>") = lit "art-all"
  /\ default_durable_name (lit "art.created") = lit "art-created".
Proof.
  split; [exact default_durable_name_spec|]. split; [|split; reflexivity].
  intros self js subject handler t out Hjs H.
  rewrite <- default_durable_name_spec.
  exact (subscribe_registers _ _ _ _ None _ _ Hjs H).
Qed.

(** Subscribing to ["art.>"] on a connected client. *)
Lemma default_durable_name_derivation_witness :
  exists r t',
    (run Broker.env (subscribe (lit "art.>") 0%nat None (connected 0%nat)) Broker.empty).1.1
    = Ev (js_subscribe (jetstream 0%nat) (lit "art.>") (Spec.durable_name (lit "art.>"))) r :: t'.
Proof.
  apply (proj1 (proj2 default_durable_name_derivation)
           (connected 0%nat) (jetstream 0%nat) (lit "art.>") 0%nat _
           (run Broker.env (subscribe (lit "art.>") 0%nat None (connected 0%nat))
              Broker.empty).2).
  - reflexivity.
  - apply run_Runs.
Defined.

(** C10.  A character other than [.] and [>] is kept where it stands, so a
    subject without [.] and [>] is its own durable name; ["art.*"] gives
    ["art-*"], and a [subscribe] to ["art.*"] without a durable name
    registers the consumer under ["art-*"]. *)
Theorem durable_name_keeps_other_characters :
  (forall c pre post,
      c <> ord "." -> c <> ord ">" ->
      default_durable_name (pre ++ c :: post)
      = default_durable_name pre ++ c :: default_durable_name post)
  /\ (forall subject,
        Forall (fun c => c <> ord "." /\ c <> ord ">") subject ->
        default_durable_name subject = subject)
  /\ default_durable_name (lit "art.*") = lit "art-*"
  /\ (forall self js handler t out,
        _js self = Some js ->
        Runs (subscribe (lit "art.*") handler None self) t out ->
        exists r t', t = Ev (js_subscribe js (lit "art.*") (lit "art-*")) r :: t').
Proof.
  split; [|split; [|split; [reflexivity|]]].
  - intros c pre post Hdot Hgt.
    change (pre ++ c :: post) with (pre ++ [c] ++ post).
    rewrite !durable_name_app, durable_name_other by assumption. reflexivity.
  - intros subject H. induction H as [|c s [Hdot Hgt] _ IH]; [reflexivity|].
    change (c :: s) with ([c] ++ s).
    rewrite durable_name_app, durable_name_other, IH by assumption. reflexivity.
  - intros self js handler t out Hjs H.
    exact (subscribe_registers _ _ _ _ None _ _ Hjs H).
Qed.

(** The star of ["art*.x"] stays. *)
Lemma durable_name_keeps_other_characters_witness :
  default_durable_name (lit "art" ++ ord "*" :: lit ".x")
  = default_durable_name (lit "art") ++ ord "*" :: default_durable_name (lit ".x").
Proof.
  apply (proj1 durable_name_keeps_other_characters); intros E; discriminate E.
Defined.

(** ** Connecting twice *)

Section IdempotentConnect.

Context {W : Type} (env : Env W).

(** What an observer of the broker sees of its streams: the subjects
    configured under each stream name. *)
Variable config : W -> str -> option (list str).

(** Opening a connection and logging do not touch the streams. *)
Hypothesis connect_frame :
  forall url w, config (env (nats_connect url) w).1 = config w.
Hypothesis log_frame :
  forall event fields w, config (env (logger_info event fields) w).1 = config w.

(** [add_stream] creates or updates: when it succeeds the stream is
    configured as requested, and a request equal to the existing
    configuration is accepted and changes nothing. *)
Hypothesis add_stream_done :
  forall js name subjects w,
    (env (js_add_stream js name subjects) w).2 = Ok tt ->
    config (env (js_add_stream js name subjects) w).1 name = Some subjects.
Hypothesis add_stream_again :
  forall js name subjects w,
    config w name = Some subjects ->
    (env (js_add_stream js name subjects) w).2 = Ok tt
    /\ config (env (js_add_stream js name subjects) w).1 = config w.

Lemma connect_run self w :
  run env (connect self) w =
  let '(w1, r1) := env (nats_connect (_nats_url self)) w in
  match r1 with
  | Raised e => ([Ev (nats_connect (_nats_url self)) r1], w1, (self, Raised e))
  | Ok nc =>
      let self1 := {| _nats_url := _nats_url self; _stream_name := _stream_name self;
                      _nc := Some nc; _js := Some (jetstream nc) |} in
      let add := js_add_stream (jetstream nc) (_stream_name self) stream_subjects in
      let '(w2, r2) := env add w1 in
      match r2 with
      | Raised e => ([Ev (nats_connect (_nats_url self)) r1; Ev add r2], w2, (self1, Raised e))
      | Ok _ =>
          let log := logger_info "nats_connected"
                       [("url", LStr (_nats_url self)); ("stream", LStr (_stream_name self))] in
          let '(w3, r3) := env log w2 in
          ([Ev (nats_connect (_nats_url self)) r1; Ev add r2; Ev log r3], w3, (self1, Ok tt))
      end
  end.
Proof.
  unfold connect. cbn.
  destruct (env (nats_connect _) w) as [w1 [nc|e]]; cbn; [|reflexivity].
  destruct (env (js_add_stream _ _ _) w1) as [w2 [[]|e]]; cbn; [|reflexivity].
  destruct (env (logger_info _ _) w2) as [w3 []]. reflexivity.
Qed.

(** C7.  Against a broker whose [add_stream] creates or updates, after a
    [connect] that succeeded a second [connect] leaves the stream
    configuration as the first left it, with the client's stream configured
    on the three subject patterns, and it raises nothing unless the
    transport itself could not be opened again. *)
Theorem connect_twice_is_connect_once self w :
  forall t1 w1 self1 t2 w2 self2 r2,
    run env (connect self) w = (t1, w1, (self1, Ok tt)) ->
    run env (connect self1) w1 = (t2, w2, (self2, r2)) ->
    config w2 = config w1
    /\ config w1 (_stream_name self) = Some stream_subjects
    /\ (r2 = Ok tt
        \/ exists e, (env (nats_connect (_nats_url self)) w1).2 = Raised e /\ r2 = Raised e).
Proof.
  intros t1 w1 self1 t2 w2 self2 r2 H1 H2.
  rewrite connect_run in H1.
  destruct (env (nats_connect _) w) as [wa [nc|e]] eqn:Ea; [|discriminate H1].
  cbn zeta in H1.
  destruct (env (js_add_stream _ _ _) wa) as [wb [[]|e]] eqn:Eb; [|discriminate H1].
  destruct (env (logger_info _ _) wb) as [wc []] eqn:Ec.
  injection H1 as <- <- <-.
  assert (Hcfg : config wc (_stream_name self) = Some stream_subjects).
  { pose proof (log_frame "nats_connected"
                  [("url", LStr (_nats_url self)); ("stream", LStr (_stream_name self))] wb) as F.
    rewrite Ec in F. cbn in F. rewrite F.
    pose proof (add_stream_done (jetstream nc) (_stream_name self) stream_subjects wa) as D.
    rewrite Eb in D. cbn in D. auto. }
  rewrite connect_run in H2. cbn [_nats_url _stream_name] in H2.
  pose proof (connect_frame (_nats_url self) wc) as Fa.
  destruct (env (nats_connect _) wc) as [wa' [nc'|e]] eqn:Ea'; cbn in Fa.
  - cbn zeta in H2.
    pose proof (add_stream_again (jetstream nc') (_stream_name self) stream_subjects wa') as A.
    rewrite Fa in A. specialize (A Hcfg).
    destruct (env (js_add_stream _ _ _) wa') as [wb' r] eqn:Eb'. cbn in A.
    destruct A as [-> Fb].
    pose proof (log_frame "nats_connected"
                  [("url", LStr (_nats_url self)); ("stream", LStr (_stream_name self))] wb') as Fc.
    destruct (env (logger_info _ _) wb') as [wc' []] eqn:Ec'. cbn in Fc.
    injection H2 as <- <- <- <-.
    split; [congruence|]. split; [assumption|]. left. reflexivity.
  - injection H2 as <- <- <- <-.
    split; [assumption|]. split; [assumption|]. right. exists e. auto.
Qed.

End IdempotentConnect.

(** The broker of [Broker.env] is such a broker. *)
Lemma connect_twice_is_connect_once_witness :
  let w1 := (run Broker.env (connect fresh_client) Broker.empty).1.2 in
  let second := run Broker.env (connect (connected 0%nat)) w1 in
  (fun name => Broker.streams second.1.2 !! name) = (fun name => Broker.streams w1 !! name)
  /\ Broker.streams w1 !! default_stream_name = Some stream_subjects
  /\ (second.2.2 = Ok tt
      \/ exists e, (Broker.env (nats_connect default_nats_url) w1).2 = Raised e
                   /\ second.2.2 = Raised e).
Proof.
  apply (connect_twice_is_connect_once Broker.env (fun w name => Broker.streams w !! name))
    with (self := fresh_client) (w := Broker.empty)
         (t1 := (run Broker.env (connect fresh_client) Broker.empty).1.1)
         (self1 := connected 0%nat)
         (t2 := (run Broker.env (connect (connected 0%nat))
                   (run Broker.env (connect fresh_client) Broker.empty).1.2).1.1)
         (self2 := connected 1%nat).
  - reflexivity.
  - reflexivity.
  - intros js name subjects w. cbn. unfold Broker.add_stream.
    destruct (Broker.streams w !! name) as [have|] eqn:E.
    + case_bool_decide; cbn; [congruence|discriminate].
    + cbn. intros _. apply lookup_insert_eq.
  - intros js name subjects w E. cbn. unfold Broker.add_stream. rewrite E.
    rewrite bool_decide_eq_true_2 by reflexivity. auto.
  - reflexivity.
  - reflexivity.
Defined.

(** ** The envelope, from publisher to subscriber *)



(** A UUID and an instant, written and read back. *)
Example generated_fields_example :
  let u := {| uuid_int := 0x123e4567e89b42d3a456426614174000 |} in
  let now := {| year := 2026; month := 11; day := 5; hour := 9; minute := 30;
                second := 7; microsecond := 1250 |} in
  uuid_str u = lit "123e4567-e89b-42d3-a456-426614174000"
  /\ Spec.uuid_of_text (uuid_str u) = Some u
  /\ isoformat now = lit "2026-11-05T09:30:07.001250+00:00"
  /\ Spec.iso8601_utc (isoformat now) = Some now.
Proof. vm_compute. auto. Qed.


(** * Further properties of the client *)

(** ** Every execution of each method *)

Lemma connect_runs self t self' r :
  Runs (connect self) t (self', r) ->
  (exists e, t = [Ev (nats_connect (_nats_url self)) (Raised e)]
             /\ self' = self /\ r = Raised e)
  \/ (exists nc e,
        t = [Ev (nats_connect (_nats_url self)) (Ok nc);
             Ev (js_add_stream (jetstream nc) (_stream_name self) stream_subjects) (Raised e)]
        /\ self' = holding self nc /\ r = Raised e)
  \/ (exists nc,
        t = [Ev (nats_connect (_nats_url self)) (Ok nc);
             Ev (js_add_stream (jetstream nc) (_stream_name self) stream_subjects) (Ok tt);
             Ev (logger_info "nats_connected"
                   [("url", LStr (_nats_url self)); ("stream", LStr (_stream_name self))]) tt]
        /\ self' = holding self nc /\ r = Ok tt).
Proof.
  intros H. unfold connect in H. cbn in H.
  destruct H as ([nc|e] & t1 & -> & H); cbn in H.
  - destruct H as ([[]|e] & t2 & -> & H); cbn in H.
    + destruct H as ([] & t3 & -> & H). cbn in H. destruct H as [-> H].
      injection H as <- <-. right. right. exists nc. auto.
    + destruct H as [-> H]. injection H as <- <-. right. left. exists nc, e. auto.
  - destruct H as [-> H]. injection H as <- <-. left. exists e. auto.
Qed.

Lemma publish_runs self js subject data t self' r :
  _js self = Some js ->
  Runs (publish subject data self) t (self', r) ->
  self' = self /\
  exists u now,
    match str_encode (dumps (make_envelope u subject now data)) with
    | Raised e => t = [Ev uuid4 u; Ev datetime_now_utc now] /\ r = Raised e
    | Ok payload =>
        (exists e, t = [Ev uuid4 u; Ev datetime_now_utc now;
                        Ev (js_publish js subject payload) (Raised e)]
                   /\ r = Raised e)
        \/ (exists ack,
              t = [Ev uuid4 u; Ev datetime_now_utc now;
                   Ev (js_publish js subject payload) (Ok ack);
                   Ev (logger_info "event_published"
                         [("subject", LStr subject); ("stream", LStr (ack_stream ack));
                          ("seq", LInt (ack_seq ack))]) tt]
              /\ r = Ok tt)
    end.
Proof.
  intros Hjs H. unfold publish in H. cbn in H. rewrite Hjs in H.
  runs_call H as u. runs_call H as now.
  destruct (str_encode (dumps (make_envelope u subject now data))) as [payload|e] eqn:Hp;
    cbn in H.
  - destruct H as ([ack|e] & t1 & -> & H); cbn in H.
    + destruct H as ([] & t2 & -> & H). cbn in H. destruct H as [-> H].
      injection H as <- <-. split; [reflexivity|]. exists u, now. rewrite Hp.
      right. exists ack. auto.
    + destruct H as [-> H]. injection H as <- <-. split; [reflexivity|].
      exists u, now. rewrite Hp. left. exists e. auto.
  - destruct H as [-> H]. injection H as <- <-. split; [reflexivity|].
    exists u, now. rewrite Hp. auto.
Qed.

Lemma subscribe_runs self js subject handler durable_name t out :
  _js self = Some js ->
  Runs (subscribe subject handler durable_name self) t out ->
  let name := default (default_durable_name subject) durable_name in
  (exists e, t = [Ev (js_subscribe js subject name) (Raised e)] /\ out = (self, Raised e))
  \/ (exists subscription t',
        t = Ev (js_subscribe js subject name) (Ok subscription)
            :: Ev (logger_info "event_subscribed"
                     [("subject", LStr subject); ("durable", LStr name)]) tt
            :: t'
        /\ Runs (deliver subject handler (messages subscription) self) t' out).
Proof.
  intros Hjs H name. unfold subscribe in H. cbn in H. rewrite Hjs in H.
  destruct durable_name as [d|]; cbn in name; subst name;
    (destruct H as ([subscription|e] & t1 & -> & H); cbn in H;
     [ destruct H as ([] & t2 & -> & H); right; exists subscription, t2; auto
     | destruct H as [-> <-]; left; exists e; auto ]).
Qed.

Lemma close_runs self t self' r :
  Runs (close self) t (self', r) ->
  self' = self /\
  match _nc self with
  | None => t = [] /\ r = Ok tt
  | Some nc =>
      (t = [Ev (nc_drain nc) (Ok tt); Ev (logger_info "nats_disconnected" []) tt]
       /\ r = Ok tt)
      \/ (exists e, t = [Ev (nc_drain nc) (Raised e)] /\ r = Raised e)
  end.
Proof.
  intros H. unfold close in H. cbn in H. destruct (_nc self) as [nc|].
  - destruct H as ([[]|e] & t1 & -> & H); cbn in H.
    + destruct H as ([] & t2 & -> & H). cbn in H. destruct H as [-> H].
      injection H as <- <-. auto.
    + destruct H as [-> H]. injection H as <- <-. split; [reflexivity|]. right. eauto.
  - cbn in H. destruct H as [-> H]. injection H as <- <-. auto.
Qed.

(** The loop body on a message whose bytes are UTF-8. *)
Lemma process_runs subject handler m self text t self1 r :
  bytes_decode (msg_data m) = Ok text ->
  Runs (process subject handler m self) t (self1, r) ->
  self1 = self /\
  match payload_of m with
  | Some data =>
      (t = [Ev (handler_call handler data) (Ok tt); Ev (msg_ack m) (Ok tt)] /\ r = Ok tt)
      \/ (exists e n,
            isinstance_Exception e = true
            /\ t = [Ev (handler_call handler data) (Ok tt); Ev (msg_ack m) (Raised e);
                    Ev (logger_exception "event_handler_error"
                          (error_record subject text) e) tt;
                    Ev (msg_nak m) n] /\ r = n)
      \/ (exists e,
            isinstance_Exception e = false
            /\ t = [Ev (handler_call handler data) (Ok tt); Ev (msg_ack m) (Raised e)]
            /\ r = Raised e)
      \/ (exists e n,
            isinstance_Exception e = true
            /\ t = [Ev (handler_call handler data) (Raised e);
                    Ev (logger_exception "event_handler_error"
                          (error_record subject text) e) tt;
                    Ev (msg_nak m) n] /\ r = n)
      \/ (exists e,
            isinstance_Exception e = false
            /\ t = [Ev (handler_call handler data) (Raised e)] /\ r = Raised e)
  | None =>
      exists e n,
        isinstance_Exception e = true
        /\ t = [Ev (logger_exception "event_handler_error" (error_record subject text) e) tt;
                Ev (msg_nak m) n] /\ r = n
  end.
Proof.
  intros Hd H. unfold payload_of. rewrite Hd.
  destruct (loads text) as [envelope|e] eqn:Hl.
  - destruct (py_get envelope (lit "data") (JObj [])) as [data|e] eqn:Hg.
    + eapply process_decoded in H; [|eassumption..].
      destruct H as (-> & h & t1 & -> & H). split; [reflexivity|].
      unfold after_raise in H. destruct h as [[]|e].
      * destruct H as (a & t2 & -> & H). destruct a as [[]|e].
        -- destruct H as [-> ->]. auto.
        -- destruct (isinstance_Exception e) eqn:He.
           ++ destruct H as (n & -> & ->). right. left. eauto.
           ++ destruct H as [-> ->]. right. right. left. eauto.
      * destruct (isinstance_Exception e) eqn:He.
        -- destruct H as (n & -> & ->). right. right. right. left. eauto.
        -- destruct H as [-> ->]. right. right. right. right. eauto.
    + pose proof (py_get_raises _ _ _ _ Hg) as He.
      eapply process_undeserializable in H as (-> & n & -> & ->); [|eassumption|eauto].
      split; [reflexivity|]. exists e, n. subst e. auto.
  - pose proof (loads_raises _ _ Hl) as He.
    eapply process_undeserializable in H as (-> & n & -> & ->); [|eassumption|eauto].
    split; [reflexivity|]. exists e, n. subst e. auto.
Qed.

(** The loop over two runs of messages, one after the other. *)
Lemma deliver_app subject handler a b self t out :
  Runs (deliver subject handler (a ++ b) self) t out <->
  exists t1 self1 r t2,
    t = t1 ++ t2 /\ Runs (deliver subject handler a self) t1 (self1, r)
    /\ match r with
       | Ok _ => Runs (deliver subject handler b self1) t2 out
       | Raised e => t2 = [] /\ out = (self1, Raised e)
       end.
Proof.
  revert self t. induction a as [|m a IH]; intros self t.
  - cbn [app]. split.
    + intros H. exists [], self, (Ok tt), t. cbn. auto.
    + intros (t1 & self1 & r & t2 & -> & H1 & H2). cbn in H1.
      destruct H1 as [-> H1]. injection H1 as <- <-. exact H2.
  - rewrite <- app_comm_cons. rewrite deliver_cons. split.
    + intros (t1 & self1 & r & t2 & -> & H1 & H2). destruct r as [[]|e].
      * apply IH in H2 as (t3 & self2 & r2 & t4 & -> & H3 & H4).
        exists (t1 ++ t3), self2, r2, t4. rewrite app_assoc. split; [reflexivity|].
        split; [|exact H4]. apply deliver_cons. exists t1, self1, (Ok tt), t3. auto.
      * destruct H2 as [-> ->]. exists t1, self1, (Raised e), []. split; [reflexivity|].
        split; [|auto]. apply deliver_cons. exists t1, self1, (Raised e), [].
        rewrite app_nil_r. auto.
    + intros (t1 & self1 & r & t2 & -> & H1 & H2).
      apply deliver_cons in H1 as (t3 & self2 & r2 & t4 & -> & H3 & H4).
      exists t3, self2, r2, (t4 ++ t2). rewrite app_assoc. split; [reflexivity|].
      split; [exact H3|]. destruct r2 as [[]|e].
      * apply IH. exists t4, self1, r, t2. auto.
      * destruct H4 as [-> H4]. injection H4 as E1 E2. subst self1 r.
        destruct H2 as [-> ->]. auto.
Qed.

(** ** connect: what a failure leaves behind *)

(** X1.  When the transport cannot be opened, [connect] raises that error
    after this one call and the client is as it was; a client that held no
    context still refuses to publish and to subscribe. *)
Theorem connect_unreachable_changes_nothing :
  forall W (env : Env W) (w : W) self e,
    (env (nats_connect (_nats_url self)) w).2 = Raised e ->
    run env (connect self) w
    = ([Ev (nats_connect (_nats_url self)) (Raised e)],
       (env (nats_connect (_nats_url self)) w).1, (self, Raised e))
    /\ (_js self = None ->
        forall subject data handler durable_name,
          publish subject data self = Ret (self, Raised not_connected)
          /\ subscribe subject handler durable_name self = Ret (self, Raised not_connected)).
Proof.
  intros W env w self e He. split.
  - rewrite connect_run. destruct (env (nats_connect (_nats_url self)) w) as [w1 r].
    cbn in He. subst r. reflexivity.
  - intros Hjs subject data handler durable_name.
    unfold publish, subscribe. cbn. rewrite Hjs. auto.
Qed.

Lemma connect_unreachable_changes_nothing_witness :
  run (faulty {| no_server := true; stream_refused := false; publish_times_out := false;
                 consumer_refused := false; deliveries := [];
                 handler_rejects := fun _ => false |})
      (connect fresh_client) Broker.empty
  = ([Ev (nats_connect default_nats_url) (Raised (OtherError "NoServersError"))],
     Broker.empty, (fresh_client, Raised (OtherError "NoServersError")))
  /\ (_js fresh_client = None ->
      forall subject data handler durable_name,
        publish subject data fresh_client = Ret (fresh_client, Raised not_connected)
        /\ subscribe subject handler durable_name fresh_client
           = Ret (fresh_client, Raised not_connected)).
Proof.
  apply (connect_unreachable_changes_nothing Broker.World
           (faulty {| no_server := true; stream_refused := false;
                      publish_times_out := false; consumer_refused := false;
                      deliveries := []; handler_rejects := fun _ => false |})
           Broker.empty fresh_client (OtherError "NoServersError")).
  reflexivity.
Defined.

(** X2.  When the stream cannot be created, [connect] raises that error
    after two calls, without a log record, and the client already holds the
    new connection and its context: a [publish] afterwards is not refused,
    it starts by asking for a UUID. *)
Theorem connect_refused_stream_leaves_guard_open :
  forall W (env : Env W) (w : W) self nc e,
    (env (nats_connect (_nats_url self)) w).2 = Ok nc ->
    (env (js_add_stream (jetstream nc) (_stream_name self) stream_subjects)
         (env (nats_connect (_nats_url self)) w).1).2 = Raised e ->
    (run env (connect self) w).1.1
    = [Ev (nats_connect (_nats_url self)) (Ok nc);
       Ev (js_add_stream (jetstream nc) (_stream_name self) stream_subjects) (Raised e)]
    /\ (run env (connect self) w).2 = (holding self nc, Raised e)
    /\ (forall subject data t out,
          Runs (publish subject data (holding self nc)) t out ->
          exists u t', t = Ev uuid4 u :: t').
Proof.
  intros W env w self nc e Hc Ha. rewrite connect_run.
  destruct (env (nats_connect (_nats_url self)) w) as [w1 r1]. cbn in Hc, Ha. subst r1.
  cbn zeta.
  destruct (env (js_add_stream (jetstream nc) (_stream_name self) stream_subjects) w1)
    as [w2 r2]. cbn in Ha. subst r2.
  split; [reflexivity|]. split; [reflexivity|].
  intros subject data t out H. unfold publish in H. cbn in H.
  destruct H as (u & t' & -> & _). eauto.
Qed.

Lemma connect_refused_stream_leaves_guard_open_witness :
  let env := faulty {| no_server := false; stream_refused := true;
                       publish_times_out := false; consumer_refused := false;
                       deliveries := []; handler_rejects := fun _ => false |} in
  (run env (connect fresh_client) Broker.empty).1.1
  = [Ev (nats_connect default_nats_url) (Ok 0%nat);
     Ev (js_add_stream (jetstream 0%nat) default_stream_name stream_subjects)
        (Raised (OtherError "BadRequestError"))]
  /\ (run env (connect fresh_client) Broker.empty).2
     = (holding fresh_client 0%nat, Raised (OtherError "BadRequestError"))
  /\ (forall subject data t out,
        Runs (publish subject data (holding fresh_client 0%nat)) t out ->
        exists u t', t = Ev uuid4 u :: t').
Proof.
  intros env.
  apply (connect_refused_stream_leaves_guard_open Broker.World env Broker.empty
           fresh_client 0%nat (OtherError "BadRequestError")); reflexivity.
Defined.

(** X3.  [connect] never drains.  Whatever the client held before, after a
    [connect] that succeeded it holds the connection this call opened, and
    the first thing the call does is to open the transport. *)
Theorem connect_replaces_without_draining :
  forall self t self' r,
    Runs (connect self) t (self', r) ->
    count is_drain t = 0%nat
    /\ head (calls t) = Some (nats_connect (_nats_url self))
    /\ (r = Ok tt ->
        exists nc, t !! 0%nat = Some (Ev (nats_connect (_nats_url self)) (Ok nc))
                   /\ _nc self' = Some nc /\ _js self' = Some (jetstream nc)).
Proof.
  intros self t self' r H.
  apply connect_runs in H as [(e & -> & -> & ->)|[(nc & e & -> & -> & ->)|(nc & -> & -> & ->)]];
    (split; [reflexivity|]); (split; [reflexivity|]); intros E; try discriminate E.
  exists nc. auto.
Qed.

Lemma connect_replaces_without_draining_witness :
  let out := run Broker.env (connect (connected 0%nat))
               {| Broker.streams := ∅; Broker.conns := 1; Broker.stored := 0 |} in
  count is_drain out.1.1 = 0%nat
  /\ head (calls out.1.1) = Some (nats_connect default_nats_url)
  /\ (out.2.2 = Ok tt ->
      exists nc, out.1.1 !! 0%nat = Some (Ev (nats_connect default_nats_url) (Ok nc))
                 /\ _nc out.2.1 = Some nc /\ _js out.2.1 = Some (jetstream nc)).
Proof.
  intros out.
  apply (connect_replaces_without_draining (connected 0%nat) out.1.1 out.2.1 out.2.2).
  exact (run_Runs Broker.env (connect (connected 0%nat))
           {| Broker.streams := ∅; Broker.conns := 1; Broker.stored := 0 |}).
Defined.

Example reconnect_example :
  _nc (run Broker.env (connect (connected 0%nat))
         {| Broker.streams := ∅; Broker.conns := 1; Broker.stored := 0 |}).2.1 = Some 1%nat.
Proof. reflexivity. Qed.

(** ** publish: one attempt *)



(** ** The client's state *)

Lemma process_keeps_self subject handler m self t self1 r :
  Runs (process subject handler m self) t (self1, r) -> self1 = self.
Proof.
  intros H. destruct (bytes_decode (msg_data m)) as [text|e] eqn:Hd.
  - eapply process_runs in H as [-> _]; [reflexivity|exact Hd].
  - rewrite (process_undecodable _ _ _ _ _ Hd) in H. cbn in H.
    destruct H as [_ H]. injection H as <- _. reflexivity.
Qed.

Lemma deliver_keeps_self subject handler msgs self t self' r :
  Runs (deliver subject handler msgs self) t (self', r) -> self' = self.
Proof.
  revert self t. induction msgs as [|m msgs IH]; intros self t H.
  - cbn in H. destruct H as [_ H]. injection H as <- _. reflexivity.
  - apply deliver_cons in H as (t1 & self1 & r1 & t2 & -> & H1 & H2).
    apply process_keeps_self in H1 as ->. destruct r1 as [[]|e].
    + apply IH in H2. exact H2.
    + destruct H2 as [_ H2]. injection H2 as <- _. reflexivity.
Qed.

(** X5.  The context the client holds is always the context of the
    connection it holds: this is so when the client is constructed and
    every execution of [connect] keeps it so, without touching the endpoint
    or the stream name; [publish], [subscribe] and [close] do not change
    the client at all, whatever happens in them. *)
Theorem context_belongs_to_connection :
  (forall nats_url stream_name, consistent (__init__ nats_url stream_name))
  /\ (forall self t self' r,
        consistent self -> Runs (connect self) t (self', r) ->
        consistent self' /\ _nats_url self' = _nats_url self
        /\ _stream_name self' = _stream_name self)
  /\ (forall self subject data t self' r,
        Runs (publish subject data self) t (self', r) -> self' = self)
  /\ (forall self subject handler durable_name t self' r,
        Runs (subscribe subject handler durable_name self) t (self', r) -> self' = self)
  /\ (forall self t self' r, Runs (close self) t (self', r) -> self' = self).
Proof.
  split; [reflexivity|]. split; [|split; [|split]].
  - intros self t self' r Hc H.
    apply connect_runs in H as [(e & _ & -> & _)|[(nc & e & _ & -> & _)|(nc & _ & -> & _)]];
      auto; repeat split.
  - intros self subject data t self' r H. destruct (_js self) as [js|] eqn:Hjs.
    + eapply publish_runs in H as [-> _]; [reflexivity|exact Hjs].
    + unfold publish in H. cbn in H. rewrite Hjs in H. cbn in H.
      destruct H as [_ H]. injection H as <- _. reflexivity.
  - intros self subject handler durable_name t self' r H.
    destruct (_js self) as [js|] eqn:Hjs.
    + eapply subscribe_runs in H; [|exact Hjs].
      destruct H as [(e & _ & H)|(sub & t' & _ & H)].
      * injection H as <- _. reflexivity.
      * apply deliver_keeps_self in H. exact H.
    + unfold subscribe in H. cbn in H. rewrite Hjs in H. cbn in H.
      destruct H as [_ H]. injection H as <- _. reflexivity.
  - intros self t self' r H. apply close_runs in H as [-> _]. reflexivity.
Qed.

Lemma context_belongs_to_connection_witness :
  consistent (run Broker.env (connect fresh_client) Broker.empty).2.1
  /\ _nats_url (run Broker.env (connect fresh_client) Broker.empty).2.1
     = _nats_url fresh_client
  /\ _stream_name (run Broker.env (connect fresh_client) Broker.empty).2.1
     = _stream_name fresh_client.
Proof.
  apply (proj1 (proj2 context_belongs_to_connection) fresh_client
           (run Broker.env (connect fresh_client) Broker.empty).1.1 _
           (run Broker.env (connect fresh_client) Broker.empty).2.2).
  - reflexivity.
  - exact (run_Runs Broker.env (connect fresh_client) Broker.empty).
Defined.

(** ** subscribe: registration *)

(** X6.  When the broker refuses the consumer, [subscribe] raises that
    error after this one call: nothing is logged, no message is processed
    and the handler is never called. *)
Theorem subscribe_refused_does_nothing :
  forall W (env : Env W) (w : W) self js subject handler durable_name e,
    _js self = Some js ->
    (env (js_subscribe js subject
            (default (default_durable_name subject) durable_name)) w).2 = Raised e ->
    (run env (subscribe subject handler durable_name self) w).1.1
    = [Ev (js_subscribe js subject
             (default (default_durable_name subject) durable_name)) (Raised e)]
    /\ (run env (subscribe subject handler durable_name self) w).2 = (self, Raised e).
Proof.
  intros W env w self js subject handler durable_name e Hjs He.
  unfold subscribe. cbn. rewrite Hjs.
  destruct durable_name as [d|]; cbn in *;
    (destruct (env (js_subscribe js subject _) w) as [w1 r]; cbn in *; subst r; auto).
Qed.

Lemma subscribe_refused_does_nothing_witness :
  let env := faulty {| no_server := false; stream_refused := false;
                       publish_times_out := false; consumer_refused := true;
                       deliveries := [example_event]; handler_rejects := fun _ => false |} in
  (run env (subscribe (lit "art.>") 0%nat None (connected 0%nat)) Broker.empty).1.1
  = [Ev (js_subscribe (jetstream 0%nat) (lit "art.>")
           (default (default_durable_name (lit "art.>")) None))
        (Raised (OtherError "BadRequestError"))]
  /\ (run env (subscribe (lit "art.>") 0%nat None (connected 0%nat)) Broker.empty).2
     = (connected 0%nat, Raised (OtherError "BadRequestError")).
Proof.
  intros env.
  apply (subscribe_refused_does_nothing Broker.World env Broker.empty (connected 0%nat)
           (jetstream 0%nat) (lit "art.>") 0%nat None (OtherError "BadRequestError"));
    reflexivity.
Defined.

(** X7.  A durable name given by the caller is used as it is, dots and
    wildcards included: the consumer is registered under it and the
    [event_subscribed] record carries it. *)
Theorem given_durable_name_is_used_verbatim :
  forall self js subject handler d t out,
    _js self = Some js ->
    Runs (subscribe subject handler (Some d) self) t out ->
    exists r t',
      t = Ev (js_subscribe js subject d) r :: t'
      /\ (forall subscription, r = Ok subscription ->
          exists t'', t' = Ev (logger_info "event_subscribed"
                                 [("subject", LStr subject); ("durable", LStr d)]) tt
                           :: t''
                      /\ Runs (deliver subject handler (messages subscription) self) t'' out).
Proof.
  intros self js subject handler d t out Hjs H.
  apply (subscribe_runs _ _ _ _ _ _ _ Hjs) in H. cbn in H.
  destruct H as [(e & -> & ->)|(sub & t' & -> & H)].
  - eexists _, _. split; [reflexivity|]. intros s [=].
  - eexists _, _. split; [reflexivity|]. intros s [= <-]. eauto.
Qed.

Lemma given_durable_name_is_used_verbatim_witness :
  exists r t',
    (run Broker.env (subscribe (lit "art.>") 0%nat (Some (lit "my.consumer>"))
                       (connected 0%nat)) Broker.empty).1.1
    = Ev (js_subscribe (jetstream 0%nat) (lit "art.>") (lit "my.consumer>")) r :: t'
    /\ (forall subscription, r = Ok subscription ->
        exists t'', t' = Ev (logger_info "event_subscribed"
                               [("subject", LStr (lit "art.>"));
                                ("durable", LStr (lit "my.consumer>"))]) tt :: t''
                    /\ Runs (deliver (lit "art.>") 0%nat (messages subscription)
                               (connected 0%nat)) t''
                         (run Broker.env (subscribe (lit "art.>") 0%nat
                            (Some (lit "my.consumer>")) (connected 0%nat)) Broker.empty).2).
Proof.
  apply (given_durable_name_is_used_verbatim (connected 0%nat) (jetstream 0%nat)
           (lit "art.>") 0%nat (lit "my.consumer>")).
  - reflexivity.
  - apply run_Runs.
Defined.

(** ** The delivery loop, over all its messages *)

Lemma acknowledged_app t1 t2 : acknowledged (t1 ++ t2) = acknowledged t1 ++ acknowledged t2.
Proof. unfold acknowledged, calls. rewrite map_app. apply omap_app. Qed.

Lemma handled_app t1 t2 : handled (t1 ++ t2) = handled t1 ++ handled t2.
Proof. unfold handled, calls. rewrite map_app. apply omap_app. Qed.

Lemma count_app kind t1 t2 : count kind (t1 ++ t2) = (count kind t1 + count kind t2)%nat.
Proof. unfold count, calls. rewrite map_app, filter_app, length_app. reflexivity. Qed.

Lemma transport_ok_app t1 t2 : transport_ok (t1 ++ t2) <-> transport_ok t1 /\ transport_ok t2.
Proof. unfold transport_ok. rewrite forallb_app, andb_true_iff. reflexivity. Qed.

Lemma decodable_text m : decodable m = true -> exists text, bytes_decode (msg_data m) = Ok text.
Proof. unfold decodable. destruct (bytes_decode (msg_data m)); [eauto|discriminate]. Qed.

(** One pass of the loop body over a message whose bytes are UTF-8, when
    the acknowledgment gets through: the message is acknowledged, unless
    the handler raised what [except Exception] does not catch. *)
Lemma process_once subject handler m self t self1 r :
  decodable m = true ->
  Runs (process subject handler m self) t (self1, r) ->
  transport_ok t ->
  (r = Ok tt /\ acknowledged t = [m] /\ handled t = option_list (payload_of m))
  \/ (exists e data,
        r = Raised e /\ isinstance_Exception e = false /\ payload_of m = Some data
        /\ t = [Ev (handler_call handler data) (Raised e)]).
Proof.
  intros Hd H Hok. apply decodable_text in Hd as [text Hd].
  eapply process_runs in H as [_ H]; [|exact Hd].
  destruct (payload_of m) as [data|].
  - destruct H as [[-> ->]|[(e & n & He & -> & ->)|[(e & He & -> & ->)
                  |[(e & n & He & -> & ->)|(e & He & -> & ->)]]]].
    + auto.
    + discriminate Hok.
    + discriminate Hok.
    + destruct n as [[]|e']; [auto|discriminate Hok].
    + right. eauto 6.
  - destruct H as (e & n & He & -> & ->).
    destruct n as [[]|e']; [auto|discriminate Hok].
Qed.

Lemma deliver_all subject handler msgs self t out :
  forallb decodable msgs = true ->
  Runs (deliver subject handler msgs self) t out ->
  transport_ok t ->
  out.1 = self /\
  match out.2 with
  | Ok _ => acknowledged t = msgs /\ handled t = omap payload_of msgs
  | Raised e =>
      isinstance_Exception e = false
      /\ exists pre m rest data,
           msgs = pre ++ m :: rest /\ payload_of m = Some data
           /\ acknowledged t = pre /\ handled t = omap payload_of pre ++ [data]
           /\ last t = Some (Ev (handler_call handler data) (Raised e))
  end.
Proof.
  revert self t. induction msgs as [|m msgs IH]; intros self t Hd H Hok.
  - cbn in H. destruct H as [-> <-]. cbn. auto.
  - cbn [forallb] in Hd. apply andb_prop in Hd as [Hm Hd].
    apply deliver_cons in H as (t1 & self1 & r & t2 & -> & H1 & H2).
    apply transport_ok_app in Hok as [Hok1 Hok2].
    pose proof (process_keeps_self _ _ _ _ _ _ _ H1) as ->.
    destruct (process_once _ _ _ _ _ _ _ Hm H1 Hok1)
      as [(-> & Ha & Hh)|(e & data & -> & He & Hp & ->)].
    + destruct (IH _ _ Hd H2 Hok2) as (E & IH'). split; [exact E|].
      rewrite acknowledged_app, handled_app, Ha, Hh.
      destruct (out.2) as [[]|e].
      * destruct IH' as [-> ->]. split; [reflexivity|].
        cbn [omap list_omap]. destruct (payload_of m); reflexivity.
      * destruct IH' as (He & pre & m' & rest & data & -> & Hp & -> & -> & Hl).
        split; [exact He|]. exists (m :: pre), m', rest, data.
        split; [reflexivity|]. split; [exact Hp|]. split; [reflexivity|].
        split; [cbn [omap list_omap]; destruct (payload_of m); reflexivity|].
        rewrite last_app, Hl. reflexivity.
    + destruct H2 as [-> ->]. cbn [fst snd]. split; [reflexivity|].
      split; [exact He|]. exists [], m, msgs, data. auto.
Qed.

(** X8.  When every delivered message is UTF-8 and every acknowledgment
    gets through: a loop that returns has acknowledged (positively or
    negatively) each message exactly once, in the order of delivery.  The
    one other way it ends is that the handler raised, on some message,
    what [except Exception] does not catch; then that is what the loop
    raises, the handler call is its last call, the messages before that
    one have been acknowledged once each, in order, and that message and
    those after it have not. *)
Theorem every_message_acknowledged_once_in_order :
  forall subject handler msgs self t out,
    forallb decodable msgs = true ->
    Runs (deliver subject handler msgs self) t out ->
    transport_ok t ->
    out.1 = self /\
    match out.2 with
    | Ok _ => acknowledged t = msgs
    | Raised e =>
        isinstance_Exception e = false
        /\ exists m rest data,
             msgs = acknowledged t ++ m :: rest
             /\ payload_of m = Some data
             /\ last t = Some (Ev (handler_call handler data) (Raised e))
    end.
Proof.
  intros subject handler msgs self t out Hd H Hok.
  destruct (deliver_all _ _ _ _ _ _ Hd H Hok) as (E & H'). split; [exact E|].
  destruct (out.2) as [[]|e].
  - apply H'.
  - destruct H' as (He & pre & m & rest & data & -> & Hp & -> & _ & Hl). eauto 8.
Qed.

(** X9.  Under the same conditions: when the loop returns, the handler has
    been called once for each message that parses to a JSON object, with
    that object's [data] (or the empty mapping), in the order of delivery,
    and for no other message.  When it ends with what the handler raised
    on some message, the handler has been called in this way for the
    messages up to and including that one, and for none after it. *)
Theorem handler_called_in_delivery_order :
  forall subject handler msgs self t out,
    forallb decodable msgs = true ->
    Runs (deliver subject handler msgs self) t out ->
    transport_ok t ->
    match out.2 with
    | Ok _ => handled t = omap payload_of msgs
    | Raised e =>
        isinstance_Exception e = false
        /\ exists pre m rest data,
             msgs = pre ++ m :: rest
             /\ payload_of m = Some data
             /\ handled t = omap payload_of pre ++ [data]
    end.
Proof.
  intros subject handler msgs self t out Hd H Hok.
  destruct (deliver_all _ _ _ _ _ _ Hd H Hok) as (_ & H').
  destruct (out.2) as [[]|e].
  - apply H'.
  - destruct H' as (He & pre & m & rest & data & -> & Hp & _ & Hh & _). eauto 8.
Qed.

(** The loop body, in every execution. *)
Lemma process_counts subject handler m self t out :
  Runs (process subject handler m self) t out ->
  count is_error_log t = count is_nak t
  /\ (count is_ack t <= count is_handler_call t)%nat
  /\ (count is_handler_call t <= 1)%nat.
Proof.
  destruct out as [self1 r]. intros H.
  destruct (bytes_decode (msg_data m)) as [text|e] eqn:Hd.
  - eapply process_runs in H as [_ H]; [|exact Hd].
    destruct (payload_of m) as [data|].
    + destruct H as [[-> ->]|[(e & n & _ & -> & ->)|[(e & _ & -> & ->)
                    |[(e & n & _ & -> & ->)|(e & _ & -> & ->)]]]];
        vm_compute; repeat split; lia.
    + destruct H as (e & n & _ & -> & ->). vm_compute. repeat split; lia.
  - rewrite (process_undecodable _ _ _ _ _ Hd) in H. destruct H as [-> _].
    vm_compute. repeat split; lia.
Qed.

(** X10.  In every execution of the loop, whatever fails: there are as
    many [event_handler_error] records as negative acknowledgments, no more
    positive acknowledgments than handler calls, and no more handler calls
    than messages. *)
Theorem loop_accounts_for_every_failure :
  forall subject handler msgs self t out,
    Runs (deliver subject handler msgs self) t out ->
    count is_error_log t = count is_nak t
    /\ (count is_ack t <= count is_handler_call t)%nat
    /\ (count is_handler_call t <= length msgs)%nat.
Proof.
  intros subject handler msgs. induction msgs as [|m msgs IH]; intros self t out H.
  - cbn in H. destruct H as [-> _]. vm_compute. repeat split; lia.
  - apply deliver_cons in H as (t1 & self1 & r & t2 & -> & H1 & H2).
    apply process_counts in H1 as (E1 & L1 & B1). rewrite !count_app. cbn [length].
    destruct r as [[]|e].
    + apply IH in H2 as (E2 & L2 & B2). lia.
    + destruct H2 as [-> _]. change (count _ []) with 0%nat. lia.
Qed.

Lemma loop_accounts_for_every_failure_witness :
  let msgs := [example_event; {| msg_seq := 9; msg_data := [Byte.xff] |}; example_array] in
  let out := run (faulty {| no_server := false; stream_refused := false;
                            publish_times_out := false; consumer_refused := false;
                            deliveries := []; handler_rejects := fun _ => true |})
               (deliver (lit "art.>") 0%nat msgs fresh_client) Broker.empty in
  count is_error_log out.1.1 = count is_nak out.1.1
  /\ (count is_ack out.1.1 <= count is_handler_call out.1.1)%nat
  /\ (count is_handler_call out.1.1 <= length msgs)%nat.
Proof.
  intros msgs out.
  apply (loop_accounts_for_every_failure (lit "art.>") 0%nat msgs fresh_client out.1.1 out.2).
  apply run_Runs.
Defined.

Lemma every_message_acknowledged_once_in_order_witness :
  let msgs := [example_event; example_array; example_bare_object] in
  let out := run Broker.env (deliver (lit "art.>") 0%nat msgs fresh_client) Broker.empty in
  out.2.1 = fresh_client /\ acknowledged out.1.1 = msgs.
Proof.
  intros msgs out.
  destruct (every_message_acknowledged_once_in_order (lit "art.>") 0%nat msgs fresh_client
              out.1.1 out.2) as [E H].
  - vm_compute. reflexivity.
  - exact (run_Runs Broker.env (deliver (lit "art.>") 0%nat msgs fresh_client) Broker.empty).
  - vm_compute. reflexivity.
  - split; [exact E|exact H].
Defined.

(** The same messages with a handler that is cancelled: the loop ends at
    the first message that reaches the handler, nothing acknowledged. *)
Example cancelled_handler_ends_the_loop :
  let msgs := [example_event; example_array; example_bare_object] in
  let out := run (answering (Raised CancelledError) (Ok tt) (Ok tt))
               (deliver (lit "art.>") 0%nat msgs fresh_client) Broker.empty in
  out.1.1 = [Ev (handler_call 0%nat artwork) (Raised CancelledError)]
  /\ out.2 = (fresh_client, Raised CancelledError).
Proof. vm_compute. auto. Qed.

Lemma handler_called_in_delivery_order_witness :
  let msgs := [example_event; example_array; example_bare_object] in
  let out := run Broker.env (deliver (lit "art.>") 0%nat msgs fresh_client) Broker.empty in
  handled out.1.1 = omap payload_of msgs.
Proof.
  intros msgs out.
  apply (handler_called_in_delivery_order (lit "art.>") 0%nat msgs fresh_client _ out.2).
  - vm_compute. reflexivity.
  - exact (run_Runs Broker.env (deliver (lit "art.>") 0%nat msgs fresh_client) Broker.empty).
  - vm_compute. reflexivity.
Defined.

Example handled_example :
  omap payload_of [example_event; example_array; example_bare_object] = [artwork; JObj []].
Proof. vm_compute. reflexivity. Qed.

(** X11.  A message that is valid JSON but not an object (an array, a
    string, a number, a boolean or [null]) is treated as a failed message:
    the handler is not called for it, the [AttributeError] of [.get], which
    names the type of the value, is logged with the text of the message,
    and [nak] is called.  The loop goes on if that call returns and ends
    with its error if it raises. *)
Theorem json_that_is_no_object_is_nacked :
  forall subject handler m rest self text j t out,
    bytes_decode (msg_data m) = Ok text ->
    loads text = Ok j ->
    is_object j = false ->
    Runs (deliver subject handler (m :: rest) self) t out ->
    payload_of m = None
    /\ exists n t',
        t = Ev (logger_exception "event_handler_error" (error_record subject text)
                  (no_attribute j "get")) tt
            :: Ev (msg_nak m) n :: t'
        /\ match n with
           | Ok _ => Runs (deliver subject handler rest self) t' out
           | Raised e => t' = [] /\ out = (self, Raised e)
           end.
Proof.
  intros subject handler m rest self text j t out Hd Hl Hj H.
  assert (Hg : py_get j (lit "data") (JObj []) = Raised (no_attribute j "get"))
    by (destruct j; try reflexivity; discriminate Hj).
  split.
  - unfold payload_of. rewrite Hd, Hl, Hg. reflexivity.
  - apply deliver_cons in H as (t1 & self1 & r & t2 & -> & H1 & H2).
    eapply process_undeserializable in H1 as (-> & n & -> & ->); [|exact Hd|eauto].
    exists n, t2. split; [reflexivity|]. exact H2.
Qed.

Lemma json_that_is_no_object_is_nacked_witness :
  let out := run Broker.env (deliver (lit "art.>") 0%nat [example_array] fresh_client)
               Broker.empty in
  payload_of example_array = None
  /\ exists n t',
      out.1.1
      = Ev (logger_exception "event_handler_error"
              (error_record (lit "art.>") (lit "[1, 2]"))
              (AttributeError "'list' object has no attribute 'get'")) tt
        :: Ev (msg_nak example_array) n :: t'
      /\ match n with
         | Ok _ => Runs (deliver (lit "art.>") 0%nat [] fresh_client) t' out.2
         | Raised e => t' = [] /\ out.2 = (fresh_client, Raised e)
         end.
Proof.
  intros out.
  apply (json_that_is_no_object_is_nacked (lit "art.>") 0%nat example_array []
           fresh_client (lit "[1, 2]") (JArr [JInt 1; JInt 2])).
  - vm_compute. reflexivity.
  - vm_compute. reflexivity.
  - reflexivity.
  - exact (run_Runs Broker.env (deliver (lit "art.>") 0%nat [example_array] fresh_client)
             Broker.empty).
Defined.

(** X12.  A message whose bytes are not UTF-8 ends the loop wherever it
    stands.  When the messages before it are UTF-8 and their
    acknowledgments get through, the loop never returns normally and its
    execution is the same whatever messages follow the bad one.  It raises
    the decoding error, exactly the messages before the bad one
    acknowledged, unless the handler raised on one of those what
    [except Exception] does not catch: then the loop has ended there, with
    that. *)
Theorem loop_ends_at_first_undecodable_message :
  forall subject handler pre bad rest self e t out,
    forallb decodable pre = true ->
    bytes_decode (msg_data bad) = Raised e ->
    Runs (deliver subject handler (pre ++ bad :: rest) self) t out ->
    transport_ok t ->
    (forall rest', Runs (deliver subject handler (pre ++ bad :: rest') self) t out)
    /\ exists e',
        out = (self, Raised e')
        /\ if isinstance_Exception e'
           then e' = e /\ acknowledged t = pre
           else exists data, last t = Some (Ev (handler_call handler data) (Raised e')).
Proof.
  intros subject handler pre bad rest self e t out Hpre Hbad H Hok.
  apply deliver_app in H as (t1 & self1 & r & t2 & -> & H1 & H2).
  apply transport_ok_app in Hok as [Hok1 _].
  destruct (deliver_all _ _ _ _ _ _ Hpre H1 Hok1) as (E & H'). cbn [fst snd] in E, H'.
  subst self1. destruct r as [[]|e1].
  - destruct H' as [Ha _].
    rewrite (deliver_undecodable _ _ _ _ _ _ Hbad) in H2. destruct H2 as [-> <-].
    rewrite app_nil_r. split.
    + intros rest'. apply deliver_app. exists t1, self, (Ok tt), [].
      rewrite app_nil_r. split; [reflexivity|]. split; [exact H1|].
      rewrite (deliver_undecodable _ _ _ _ _ _ Hbad). cbn. auto.
    + exists e. split; [reflexivity|].
      rewrite (bytes_decode_raises _ _ Hbad). cbn. rewrite <- (bytes_decode_raises _ _ Hbad).
      auto.
  - destruct H' as (He & _ & _ & _ & data & _ & _ & _ & _ & Hl).
    destruct H2 as [-> ->]. rewrite app_nil_r. split.
    + intros rest'. apply deliver_app. exists t1, self, (Raised e1), [].
      rewrite app_nil_r. auto.
    + exists e1. split; [reflexivity|]. rewrite He. eauto.
Qed.

Lemma loop_ends_at_first_undecodable_message_witness :
  let bad := {| msg_seq := 9; msg_data := [Byte.xff] |} in
  let out := run Broker.env
               (deliver (lit "art.>") 0%nat [example_event; bad; example_bare_object]
                  fresh_client) Broker.empty in
  (forall rest',
      Runs (deliver (lit "art.>") 0%nat ([example_event] ++ bad :: rest') fresh_client)
        out.1.1 out.2)
  /\ out.2 = (fresh_client, Raised UnicodeDecodeError)
  /\ acknowledged out.1.1 = [example_event].
Proof.
  intros bad out.
  destruct (loop_ends_at_first_undecodable_message (lit "art.>") 0%nat [example_event] bad
              [example_bare_object] fresh_client UnicodeDecodeError out.1.1 out.2)
    as (Hall & e' & E & H).
  - vm_compute. reflexivity.
  - reflexivity.
  - exact (run_Runs Broker.env
             (deliver (lit "art.>") 0%nat [example_event; bad; example_bare_object]
                fresh_client) Broker.empty).
  - vm_compute. reflexivity.
  - split; [exact Hall|]. split; [reflexivity|]. reflexivity.
Defined.

(** ** The bytes on the wire *)

Lemma digit_char_printable (d : N) : d < 16 -> 0x20 <= digit_char d <= 0x7E.
Proof.
  intros H. unfold digit_char. change (ord "0") with 48. change (ord "a") with 97.
  destruct (d <? 10) eqn:E; [apply N.ltb_lt in E|]; lia.
Qed.

Lemma fixed_digits_printable (base : N) (width : nat) (n : N) :
  0 < base <= 16 -> printable (fixed_digits base width n).
Proof.
  intros Hb. revert n. induction width as [|w IH]; intros n; cbn [fixed_digits].
  - constructor.
  - apply Forall_app. split; [apply IH|]. constructor; [|constructor].
    apply digit_char_printable. apply N.lt_le_trans with base; [apply N.mod_lt|]; lia.
Qed.

Ltac printable_literal := solve [vm_compute; repeat constructor; discriminate].

Lemma escape_char_printable (c : N) : printable (escape_char c).
Proof.
  unfold escape_char.
  do 7 (match goal with
        | |- printable (if ?b then _ else _) => destruct b; [printable_literal|]
        end).
  destruct ((0x20 <=? c) && (c <=? 0x7E)) eqn:Hp.
  - apply andb_prop in Hp as [H1 H2]. apply N.leb_le in H1, H2.
    constructor; [lia|constructor].
  - destruct (c <? 0x10000); cbv zeta.
    + constructor; [split; discriminate|]. constructor; [split; discriminate|].
      apply fixed_digits_printable. lia.
    + apply Forall_app. split;
        (constructor; [split; discriminate|]; constructor; [split; discriminate|];
         apply fixed_digits_printable; lia).
Qed.

Lemma basestring_printable (s : str) : printable (encode_basestring_ascii s).
Proof.
  unfold encode_basestring_ascii. constructor; [split; discriminate|].
  apply Forall_app. split; [|printable_literal].
  induction s as [|c s IH]; cbn [flat_map]; [constructor|].
  apply Forall_app. split; [apply escape_char_printable|exact IH].
Qed.

Lemma uint_chars_printable (u : Decimal.uint) : printable (uint_chars u).
Proof. induction u; constructor; try assumption; split; discriminate. Qed.

Lemma join_printable (parts : list str) :
  Forall printable parts -> printable (join sep parts).
Proof.
  induction 1 as [|p ps Hp _ IH]; [constructor|]. rewrite join_cons.
  apply Forall_app. split; [exact Hp|]. destruct ps; [constructor|].
  apply Forall_app. split; [printable_literal|exact IH].
Qed.

(** What [json.dumps] writes for a value without floats is printable
    ASCII, whatever characters its strings hold. *)
Lemma dumps_printable (j : JSON) : float_free j = true -> printable (dumps j).
Proof.
  induction j using JSON_induction; intros Hwf.
  - printable_literal.
  - destruct b; printable_literal.
  - unfold dumps, repr_int. apply Forall_app. split; [|apply uint_chars_printable].
    destruct (z <? 0)%Z; [printable_literal|constructor].
  - discriminate Hwf.
  - apply basestring_printable.
  - cbn [float_free] in Hwf. rewrite dumps_array. constructor; [split; discriminate|].
    apply Forall_app. split; [|printable_literal]. apply join_printable.
    apply Forall_map.
    induction H as [|x xs Hx _ IH]; constructor;
      cbn [forallb] in Hwf; apply andb_prop in Hwf as [? ?]; auto.
  - cbn [float_free] in Hwf.
    rewrite dumps_object. constructor; [split; discriminate|].
    apply Forall_app. split; [|printable_literal]. apply join_printable.
    apply Forall_map.
    induction H as [|[k v] xs Hx _ IH]; constructor;
      cbn [forallb fst snd] in Hwf; apply andb_prop in Hwf as [Hv ?]; auto.
    unfold member. cbn [fst snd] in *.
    apply Forall_app. split; [apply basestring_printable|].
    apply Forall_app. split; [printable_literal|]. exact (Hx Hv).
Qed.

Lemma printable_ascii (s : str) : printable s -> ascii_text s.
Proof.
  intros H. eapply Forall_impl; [exact H|]. intros c Hc. cbn in Hc. lia.
Qed.

(** X13.  Whatever text the subject and the payload hold, as long as the
    payload has no float, the message [publish] hands to the broker
    consists of printable ASCII bytes only (no control character, no line
    break, nothing above the tilde). *)
Theorem published_bytes_are_printable_ascii :
  forall self js subject data t out,
    _js self = Some js ->
    float_free (JObj data) = true ->
    Runs (publish subject data self) t out ->
    exists u now payload r t',
      t = Ev uuid4 u :: Ev datetime_now_utc now
          :: Ev (js_publish js subject payload) r :: t'
      /\ Forall (fun b => 0x20 <= Byte.to_N b <= 0x7E) payload.
Proof.
  intros self js subject data t out Hjs Hd H.
  destruct out as [self' r]. eapply publish_runs in H as (_ & u & now & H); [|exact Hjs].
  assert (Hp : printable (dumps (make_envelope u subject now data))).
  { apply dumps_printable. unfold make_envelope. cbn [float_free forallb snd] in *.
    rewrite Hd. reflexivity. }
  destruct (encode_decode_ascii _ (printable_ascii _ Hp)) as [Henc _].
  rewrite Henc in H.
  assert (Hb : Forall (fun b => 0x20 <= Byte.to_N b <= 0x7E)
                 (ascii_bytes (dumps (make_envelope u subject now data)))).
  { apply Forall_map with (f := Byte.to_N) (P := fun n => 0x20 <= n <= 0x7E).
    unfold ascii_bytes. rewrite to_N_byte_of by (apply printable_ascii, Hp). exact Hp. }
  destruct H as [(e & -> & _)|(ack & -> & _)]; eexists u, now, _, _, _; split;
    try reflexivity; exact Hb.
Qed.

Lemma published_bytes_are_printable_ascii_witness :
  exists u now payload r t',
    (run Broker.env (publish [0x61; 0xE9; 0x0A; 0x1F600] [(lit "title", JStr [0x2603; 0x09])]
                       (connected 0%nat)) Broker.empty).1.1
    = Ev uuid4 u :: Ev datetime_now_utc now
      :: Ev (js_publish (jetstream 0%nat) [0x61; 0xE9; 0x0A; 0x1F600] payload) r :: t'
    /\ Forall (fun b => 0x20 <= Byte.to_N b <= 0x7E) payload.
Proof.
  apply (published_bytes_are_printable_ascii (connected 0%nat) (jetstream 0%nat)
           [0x61; 0xE9; 0x0A; 0x1F600] [(lit "title", JStr [0x2603; 0x09])] _
           (run Broker.env (publish [0x61; 0xE9; 0x0A; 0x1F600]
                              [(lit "title", JStr [0x2603; 0x09])]
                              (connected 0%nat)) Broker.empty).2).
  - reflexivity.
  - reflexivity.
  - apply run_Runs.
Defined.

(** ** The default durable name, further *)

Lemma durable_char_clean (c : N) :
  Forall (fun d => d <> ord "." /\ d <> ord ">") (Spec.durable_char c).
Proof.
  unfold Spec.durable_char.
  destruct (N.eqb_spec c (ord ".")) as [|Hdot];
    [repeat constructor; discriminate|].
  destruct (N.eqb_spec c (ord ">")) as [|Hgt];
    [repeat constructor; discriminate|].
  constructor; [auto|constructor].
Qed.

(** X14.  The default durable name never contains a dot or a [>],
    whatever the subject. *)
Theorem default_durable_name_has_no_dot_no_gt :
  forall subject,
    Forall (fun c => c <> ord "." /\ c <> ord ">") (default_durable_name subject).
Proof.
  intros subject. rewrite default_durable_name_spec. unfold Spec.durable_name.
  induction subject as [|c s IH]; cbn [flat_map]; [constructor|].
  apply Forall_app. split; [apply durable_char_clean|exact IH].
Qed.

Lemma durable_name_fixed (s : str) :
  Forall (fun c => c <> ord "." /\ c <> ord ">") s -> default_durable_name s = s.
Proof.
  induction 1 as [|c s [Hdot Hgt] _ IH]; [reflexivity|].
  change (c :: s) with ([c] ++ s).
  rewrite durable_name_app, durable_name_other, IH by assumption. reflexivity.
Qed.

(** X15.  Deriving the name of a derived name changes nothing, so a subject
    with a dot or a [>] and its own default durable name, two different
    subjects, get the same default durable name. *)
Theorem default_durable_names_collide :
  forall subject,
    default_durable_name (default_durable_name subject) = default_durable_name subject
    /\ (Exists (fun c => c = ord "." \/ c = ord ">") subject ->
        default_durable_name subject <> subject).
Proof.
  intros subject. pose proof (default_durable_name_has_no_dot_no_gt subject) as Hclean.
  split; [apply durable_name_fixed, Hclean|].
  intros Hex E. rewrite E in Hclean.
  apply Exists_exists in Hex as (c & Hin & Hc).
  rewrite Forall_forall in Hclean. destruct (Hclean c Hin) as [Hdot Hgt].
  destruct Hc; contradiction.
Qed.

Lemma default_durable_names_collide_witness :
  default_durable_name (default_durable_name (lit "art.>")) = default_durable_name (lit "art.>")
  /\ (Exists (fun c => c = ord "." \/ c = ord ">") (lit "art.>") ->
      default_durable_name (lit "art.>") <> lit "art.>").
Proof. apply (default_durable_names_collide (lit "art.>")). Defined.
